(** * First-message extraction from scanned e-mail PDFs

    A shallow embedding of [scripts/pdf_to_csv.py]: the text cleanup
    ([clean_text]), the date normalisation ([normalize_date]), the line scan
    that fills the header fields ([parse_first_email]), the body trimmer
    ([remove_trailing_text]) and the top-level script that walks the
    documents and writes the table and the summary.

    Python strings are modelled as lists of characters whose code points lie
    in 0..255 (the [ascii] type read as Latin-1).  On that range [str.lower]
    keeps the length of a string, which is what lets the script slice the
    original text at an index found in its lower-cased copy.  A second
    embedding of [remove_trailing_text], [Wide.remove_trailing_text], adds
    U+0130, the character that [str.lower] lengthens: it agrees with the
    first on the range 0..255 and shows where the cut falls beyond it. *)

From Stdlib Require Import Ascii String.
From Stdlib Require Import List ZArith Bool Arith Lia DecimalString.
From Stdlib Require Import Permutation Sorted.
Import ListNotations.

(** ** Python strings *)

Definition str := list ascii.

(** A string literal of the source. *)
Definition py (lit : string) : str := list_ascii_of_string lit.

Definition LF : ascii := ascii_of_nat 10.
Definition CR : ascii := ascii_of_nat 13.
Definition QUOTE : ascii := ascii_of_nat 34.
Definition STAR : ascii := ascii_of_nat 42.

Definition code (c : ascii) : N := N_of_ascii c.

Definition in_range (lo hi : N) (c : ascii) : bool :=
  ((lo <=? code c) && (code c <=? hi))%N.

(** [str.isspace] on one character; the same class is what [str.strip()]
    removes and what the pattern [\s] matches on a [str]. *)
Definition isspace (c : ascii) : bool :=
  in_range 9 13 c || in_range 28 32 c
  || (code c =? 133)%N || (code c =? 160)%N.

(** The line boundaries of [str.splitlines]. *)
Definition is_linebreak (c : ascii) : bool :=
  in_range 10 13 c || in_range 28 30 c || (code c =? 133)%N.

(** The pattern [\d]. *)
Definition isdigit (c : ascii) : bool := in_range 48 57 c.

(** The pattern [\w]: alphanumeric characters and the underscore. *)
Definition isword (c : ascii) : bool :=
  in_range 48 57 c || in_range 65 90 c || in_range 97 122 c
  || (code c =? 95)%N || (code c =? 170)%N
  || in_range 178 179 c || (code c =? 181)%N
  || in_range 185 186 c || in_range 188 190 c
  || in_range 192 214 c || in_range 216 246 c || in_range 248 255 c.

Definition lower_char (c : ascii) : ascii :=
  if in_range 65 90 c || in_range 192 214 c || in_range 216 222 c
  then ascii_of_N (code c + 32)
  else c.

(** [s.lower()] *)
Definition lower (s : str) : str := map lower_char s.

(** Truth value of a string: [not s] holds for the empty string only. *)
Definition truthy (s : str) : bool :=
  match s with [] => false | _ :: _ => true end.

(** [s.startswith(p)] *)
Fixpoint startswith (s p : str) : bool :=
  match p, s with
  | [], _ => true
  | _ :: _, [] => false
  | a :: p', c :: s' => Ascii.eqb c a && startswith s' p'
  end.

(** Leftmost position at which a matcher accepts.  The matcher sees the
    character in front of the position (for [\b]) and the rest of the
    string from the position on. *)
Fixpoint search_from (m : option ascii -> str -> bool)
    (prev : option ascii) (s : str) (i : nat) : option nat :=
  if m prev s then Some i
  else match s with
       | [] => None
       | c :: s' => search_from m (Some c) s' (S i)
       end.

Definition search (m : option ascii -> str -> bool) (s : str) : option nat :=
  search_from m None s 0.

(** [s.find(sub)]: the lowest index of [sub] in [s], or -1. *)
Definition find (s sub : str) : Z :=
  match search (fun _ t => startswith t sub) s with
  | Some i => Z.of_nat i
  | None => (-1)%Z
  end.

(** [s[:i]], negative indices counting from the end. *)
Definition slice_to (s : str) (i : Z) : str :=
  if (i <? 0)%Z then firstn (Z.to_nat (Z.of_nat (length s) + i)) s
  else firstn (Z.to_nat i) s.

(** [s[n:]] for a literal [n >= 0]. *)
Definition slice_from (s : str) (n : nat) : str := skipn n s.

Fixpoint lstrip_by (p : ascii -> bool) (s : str) : str :=
  match s with
  | [] => []
  | c :: s' => if p c then lstrip_by p s' else s
  end.

Definition rstrip_by (p : ascii -> bool) (s : str) : str :=
  rev (lstrip_by p (rev s)).

Definition strip_by (p : ascii -> bool) (s : str) : str :=
  rstrip_by p (lstrip_by p s).

(** [s.strip()] *)
Definition strip (s : str) : str := strip_by isspace s.

(** [s.strip(chars)] *)
Definition strip_chars (s chars : str) : str :=
  strip_by (fun c => existsb (Ascii.eqb c) chars) s.

(** Left-to-right replacement of non-overlapping matches, the common engine
    of [str.replace] and [re.sub].  [m t] is the length of the match that
    starts at the head of [t], if there is one; [skip] counts the characters
    of the current match that are still to be passed over.  None of the
    patterns of the script matches the empty string. *)
Fixpoint sub_go (m : str -> option nat) (repl : str) (skip : nat) (s : str)
    : str :=
  match s with
  | [] => []
  | c :: s' =>
      match skip with
      | S n => sub_go m repl n s'
      | O =>
          match m s with
          | Some (S n) => repl ++ sub_go m repl n s'
          | _ => c :: sub_go m repl 0 s'
          end
      end
  end.

Definition re_sub (m : str -> option nat) (repl s : str) : str :=
  sub_go m repl 0 s.

(** [s.replace(old, new)] for a non-empty [old]. *)
Definition replace (s old new : str) : str :=
  re_sub (fun t => if startswith t old then Some (length old) else None)
         new s.

(** [s.splitlines()]: [cur] holds the current line, reversed. *)
Fixpoint splitlines_go (cur : str) (s : str) : list str :=
  match s with
  | [] => match cur with [] => [] | _ :: _ => [rev cur] end
  | c :: s' =>
      if is_linebreak c then
        rev cur ::
          match s' with
          | n :: t =>
              if Ascii.eqb c CR && Ascii.eqb n LF then splitlines_go [] t
              else splitlines_go [] s'
          | [] => splitlines_go [] s'
          end
      else splitlines_go (c :: cur) s'
  end.

Definition splitlines (s : str) : list str := splitlines_go [] s.

(** [s.split(sep, 1)] for a one-character separator. *)
Fixpoint split_once_go (sep : ascii) (cur : str) (s : str) : list str :=
  match s with
  | [] => [rev cur]
  | c :: s' =>
      if Ascii.eqb c sep then [rev cur; s'] else split_once_go sep (c :: cur) s'
  end.

Definition split_once (s : str) (sep : ascii) : list str :=
  split_once_go sep [] s.

(** [sep.join(parts)] *)
Fixpoint join (sep : str) (parts : list str) : str :=
  match parts with
  | [] => []
  | [p] => p
  | p :: rest => p ++ sep ++ join sep rest
  end.

(** ** Regular expressions

    A pattern is a matcher in continuation-passing style: [r k prev t] holds
    when some way of matching [r] at the head of [t] leaves a rest that the
    continuation [k] accepts.  A backtracking engine finds a match at a
    position exactly when one exists, so greedy and lazy quantifiers agree
    on where the leftmost match starts, which is all the script reads
    ([match.span(0)[0]]). *)

Definition cont := option ascii -> str -> bool.
Definition regex := cont -> cont.

Definition accept : cont := fun _ _ => true.

Definition r_char (p : ascii -> bool) : regex :=
  fun k _ t =>
    match t with
    | c :: t' => p c && k (Some c) t'
    | [] => false
    end.

(** A literal under [re.IGNORECASE]. *)
Fixpoint r_lit_ci (l : str) : regex :=
  match l with
  | [] => fun k => k
  | a :: l' =>
      fun k => r_char (fun c => Ascii.eqb (lower_char c) (lower_char a))
                      (r_lit_ci l' k)
  end.

(** [p*] and [p*?] *)
Definition r_star (p : ascii -> bool) : regex :=
  fun k =>
    fix go (prev : option ascii) (t : str) : bool :=
      k prev t
      || match t with
         | c :: t' => p c && go (Some c) t'
         | [] => false
         end.

(** [p+] *)
Definition r_plus (p : ascii -> bool) : regex :=
  fun k => r_char p (r_star p k).

(** [r?] *)
Definition r_opt (r : regex) : regex :=
  fun k prev t => r k prev t || k prev t.

Definition isword_opt (c : option ascii) : bool :=
  match c with Some c => isword c | None => false end.

(** [\b] *)
Definition r_wordb : regex :=
  fun k prev t => xorb (isword_opt prev) (isword_opt (hd_error t)) && k prev t.

(** [.] without [re.DOTALL] *)
Definition dot (c : ascii) : bool := negb (Ascii.eqb c LF).

(** [re.search(p, s, re.IGNORECASE)], reduced to the start of the match. *)
Definition re_search (r : regex) (s : str) : option nat :=
  search (r accept) s.

(** ** clean_text *)

(** [=\d{2,3}], greedy *)
Definition m_escape (t : str) : option nat :=
  match t with
  | e :: d1 :: d2 :: rest =>
      if Ascii.eqb e "="%char && isdigit d1 && isdigit d2 then
        match rest with
        | d3 :: _ => if isdigit d3 then Some 4 else Some 3
        | [] => Some 3
        end
      else None
  | _ => None
  end.

Fixpoint span_len (p : ascii -> bool) (t : str) : nat :=
  match t with
  | c :: t' => if p c then S (span_len p t') else 0
  | [] => 0
  end.

(** [\s+], greedy *)
Definition m_spaces (t : str) : option nat :=
  match span_len isspace t with
  | O => None
  | n => Some n
  end.

(** [\r\n] *)
Definition m_crlf (t : str) : option nat :=
  if startswith t [CR; LF] then Some 2 else None.

Definition clean_text (text : str) : str :=
  let text := replace text (py "=br>") [LF] in
  let text := re_sub m_escape [] text in
  let text := replace text (py "=8E") [] in
  let text := re_sub m_spaces (py " ") text in
  let text := re_sub m_crlf [LF] text in
  strip text.

(** ** Exceptions *)

(** [ParserError] and [OverflowError] come from the date handling,
    [NameError] from a name that is not bound; [PdfError] stands for
    whatever [pdfplumber] raises on a file it cannot open or read. *)
Inductive exn := ParserError | OverflowError | NameError | PdfError.

Inductive result (A : Type) : Type :=
| Ok (a : A)
| Raise (e : exn).

Arguments Ok {A} a.
Arguments Raise {A} e.

Definition bind {A B : Type} (r : result A) (f : A -> result B) : result B :=
  match r with
  | Ok a => f a
  | Raise e => Raise e
  end.

Notation "x <- r ;; k" := (bind r (fun x => k))
  (at level 61, r at next level, right associativity).

(** ** datetime

    A [datetime] is its wall-clock reading, counted in microseconds from
    0001-01-01T00:00:00, and the UTC offset of its [tzinfo] in seconds
    ([None] for a naive value).  The supported readings are those of the
    years 1 to 9999. *)

Record datetime := { wall : Z; tzinfo : option Z }.

Local Open Scope Z_scope.

Definition MAX_WALL : Z := 3652059 * 86400 * 1000000 - 1.

Definition utc : Z := 0.

Definition is_leap (y : Z) : bool :=
  (y mod 4 =? 0) && (negb (y mod 100 =? 0) || (y mod 400 =? 0)).

Definition days_before_year (y : Z) : Z :=
  let p := y - 1 in p * 365 + p / 4 - p / 100 + p / 400.

Definition days_in_month (leap : bool) (m : Z) : Z :=
  if m =? 2 then (if leap then 29 else 28)
  else if (m =? 4) || (m =? 6) || (m =? 9) || (m =? 11) then 30
  else 31.

Definition days_before_month (leap : bool) (m : Z) : Z :=
  fold_left (fun acc k => acc + days_in_month leap (Z.of_nat k))
            (seq 1 (Z.to_nat (m - 1))) 0.

(** Days from 0001-01-01 to the given date. *)
Definition ymd2ord (y m d : Z) : Z :=
  days_before_year y + days_before_month (is_leap y) m + (d - 1).

(** The date that lies [n] days after 0001-01-01. *)
Definition ord2ymd (n : Z) : Z * Z * Z :=
  let n400 := n / 146097 in
  let n := n mod 146097 in
  let n100 := n / 36524 in
  let n := n mod 36524 in
  let n4 := n / 1461 in
  let n := n mod 1461 in
  let n1 := n / 365 in
  let n := n mod 365 in
  let year := n400 * 400 + 1 + n100 * 100 + n4 * 4 + n1 in
  if (n1 =? 4) || (n100 =? 4) then (year - 1, 12, 31)
  else
    let leapyear := (n1 =? 3) && (negb (n4 =? 24) || (n100 =? 3)) in
    let month := Z.shiftr (n + 50) 5 in
    let preceding :=
      days_before_month false month
      + (if (2 <? month) && leapyear then 1 else 0) in
    if n <? preceding then
      let month := month - 1 in
      let preceding :=
        preceding - (days_in_month false month
                     + (if (month =? 2) && leapyear then 1 else 0)) in
      (year, month, n - preceding + 1)
    else (year, month, n - preceding + 1).

Definition mk_datetime (y m d hh mi ss us : Z) (tz : option Z) : datetime :=
  {| wall := ((ymd2ord y m d * 86400) + hh * 3600 + mi * 60 + ss) * 1000000
             + us;
     tzinfo := tz |}.

(** [dt.replace(tzinfo=tz)] *)
Definition replace_tzinfo (dt : datetime) (tz : Z) : datetime :=
  {| wall := wall dt; tzinfo := Some tz |}.

(** [dt + timedelta(seconds=secs)] on the wall-clock reading. *)
Definition shift (w secs : Z) : result Z :=
  let w' := w + secs * 1000000 in
  if (0 <=? w') && (w' <=? MAX_WALL) then Ok w' else Raise OverflowError.

(** [dt.astimezone(tz)] for an aware [dt] whose offset is [myoffset]. *)
Definition astimezone (dt : datetime) (myoffset tz : Z) : result datetime :=
  u <- shift (wall dt) (- myoffset) ;;
  w <- shift u tz ;;
  Ok {| wall := w; tzinfo := Some tz |}.

Definition digit (n : Z) : ascii := ascii_of_N (48 + Z.to_N (n mod 10)).

(** [n] in decimal, zero-padded to [width] digits. *)
Fixpoint dec (width : nat) (n : Z) : str :=
  match width with
  | O => []
  | S w => dec w (n / 10) ++ [digit n]
  end.

Definition format_offset (tz : option Z) : str :=
  match tz with
  | None => []
  | Some off =>
      let a := Z.abs off in
      (if off <? 0 then py "-" else py "+")
      ++ dec 2 (a / 3600) ++ py ":" ++ dec 2 (a / 60 mod 60)
      ++ (if a mod 60 =? 0 then [] else py ":" ++ dec 2 (a mod 60))
  end.

(** [dt.isoformat()] *)
Definition isoformat (dt : datetime) : str :=
  let us := wall dt mod 1000000 in
  let secs := wall dt / 1000000 in
  let sod := secs mod 86400 in
  let '(y, m, d) := ord2ymd (secs / 86400) in
  dec 4 y ++ py "-" ++ dec 2 m ++ py "-" ++ dec 2 d ++ py "T"
  ++ dec 2 (sod / 3600) ++ py ":" ++ dec 2 (sod / 60 mod 60)
  ++ py ":" ++ dec 2 (sod mod 60)
  ++ (if us =? 0 then [] else py "." ++ dec 6 us)
  ++ format_offset (tzinfo dt).

Local Close Scope Z_scope.

(** ** The e-mail record *)

Record headers := {
  From : str;
  To : str;
  Sent : str;
  Subject : str;
  Content : str
}.

Definition set_From (h : headers) (v : str) : headers :=
  {| From := v; To := To h; Sent := Sent h; Subject := Subject h;
     Content := Content h |}.

Definition set_To (h : headers) (v : str) : headers :=
  {| From := From h; To := v; Sent := Sent h; Subject := Subject h;
     Content := Content h |}.

Definition set_Sent (h : headers) (v : str) : headers :=
  {| From := From h; To := To h; Sent := v; Subject := Subject h;
     Content := Content h |}.

Definition set_Subject (h : headers) (v : str) : headers :=
  {| From := From h; To := To h; Sent := Sent h; Subject := v;
     Content := Content h |}.

Definition set_Content (h : headers) (v : str) : headers :=
  {| From := From h; To := To h; Sent := Sent h; Subject := Subject h;
     Content := v |}.

(** What one pass of the loop body does to the loop. *)
Inductive flow :=
| Continue (h : headers)
| Break.

(** [x or y] for an optional string [x]. *)
Definition or_else (x : option str) (y : str) : str :=
  match x with
  | Some v => if truthy v then v else y
  | None => y
  end.

(** [i != -1] *)
Definition found (i : Z) : bool := negb (Z.eqb i (-1)).

Section Extraction.

(** [dateutil.parser.parse(date_str, fuzzy=True)]: the parsed value, or the
    exception it raises. *)
Variable parser_parse : str -> result datetime.

(** ** normalize_date *)

Definition normalize_date (date_str : str) : option str :=
  match
    dt <- parser_parse date_str ;;
    dt <- match tzinfo dt with
          | None => Ok (replace_tzinfo dt utc)
          | Some myoffset => astimezone dt myoffset utc
          end ;;
    Ok (isoformat dt)
  with
  | Ok iso => Some iso
  | Raise _ => None
  end.

(** ** parse_first_email *)

(** The body of the loop over the lines.  [line.split(":", 1)[1]] is read
    with a default: the guard in front of it puts a colon in the line, so the
    second part is always there ([split_once_second]). *)
Definition step (h : headers) (line : str) : flow :=
  let line := strip line in
  if negb (truthy line) then Continue h
  else if startswith (lower line) (py "from:") && negb (truthy (From h)) then
    Continue
      (set_From h (clean_text (strip_chars (strip (slice_from line 5)) [QUOTE])))
  else if startswith (lower line) (py "to:") && negb (truthy (To h)) then
    Continue
      (set_To h (clean_text (strip_chars (strip (slice_from line 3)) [QUOTE])))
  else if (startswith (lower line) (py "sent:")
           || startswith (lower line) (py "date:"))
          && negb (truthy (Sent h)) then
    let raw_date :=
      clean_text
        (strip_chars (strip (nth 1 (split_once line ":"%char) [])) [QUOTE]) in
    let utc_date := normalize_date raw_date in
    Continue (set_Sent h (or_else utc_date raw_date))
  else if startswith (lower line) (py "subject:")
          && negb (truthy (Subject h)) then
    Continue
      (set_Subject h
         (clean_text
            (strip_chars (strip (nth 1 (split_once line ":"%char) []))
                         [QUOTE])))
  else if found (find (lower (From h)) (py "kronprinsessen"))
          && found (find (lower line) (py "den"))
          && found (find (lower line) (py "skrev")) then
    Break
  else if found (find (lower (From h)) (py "epstein"))
          && (found (find (lower line) (py "*****************************"))
              || found (find (lower line)
                   (py "the information contained in this communication is")))
  then Break
  else if truthy (From h) && truthy (To h) && truthy (Sent h) then
    Continue (set_Content h (Content h ++ py " " ++ [LF] ++ clean_text line))
  else Continue h.

Fixpoint scan (h : headers) (lines : list str) : headers :=
  match lines with
  | [] => h
  | line :: rest =>
      match step h line with
      | Continue h' => scan h' rest
      | Break => h
      end
  end.

Definition init_headers : headers :=
  {| From := []; To := []; Sent := []; Subject := []; Content := [] |}.

Definition parse_first_email (text : str) : option headers :=
  let h := scan init_headers (splitlines text) in
  if negb (truthy (From h)) || negb (truthy (To h)) || negb (truthy (Sent h))
  then None
  else Some h.

End Extraction.

(** ** remove_trailing_text *)

(** [Den.*?kl\..*?skrev] *)
Definition re_den_skrev : regex :=
  fun k =>
    r_lit_ci (py "Den")
      (r_star dot (r_lit_ci (py "kl.") (r_star dot (r_lit_ci (py "skrev") k)))).

(** [\bOn\s+.*?\bwrote:?\b] *)
Definition re_on_wrote : regex :=
  fun k =>
    r_wordb
      (r_lit_ci (py "On")
         (r_plus isspace
            (r_star dot
               (r_wordb
                  (r_lit_ci (py "wrote") (r_opt (r_lit_ci (py ":")) (r_wordb k))))))).

Definition reply_patterns : list regex := [re_den_skrev; re_on_wrote].

(** As in the source, the index of a marker is found in the lower-cased
    copy and the text itself is sliced there.  On the strings modelled here
    (code points 0..255) the copy has the length of the text and the index
    names the same place in both.  That is not so for every Python string:
    [str.lower] turns U+0130 into two code points, which moves the markers
    behind it one place to the right in the copy.  Properties that depend on
    where the cut falls are therefore properties of bodies in this range. *)
Definition remove_trailing_text (full_email : str) : str :=
  let disclaimer_index :=
    find (lower full_email) (py "the information contained in this") in
  let full_email :=
    if found disclaimer_index then
      let full_email := slice_to full_email disclaimer_index in
      let please_note_index := find (lower full_email) (py "please note") in
      if found please_note_index then slice_to full_email please_note_index
      else full_email
    else full_email in
  let sent_from_index := find (lower full_email) (py "sent from my ") in
  let full_email :=
    if found sent_from_index then slice_to full_email sent_from_index
    else full_email in
  let sent_from_index := find (lower full_email) (py "sendt fra min ") in
  let full_email :=
    if found sent_from_index then slice_to full_email sent_from_index
    else full_email in
  let full_email :=
    fold_left
      (fun full_email p =>
         match re_search p full_email with
         | Some start => slice_to full_email (Z.of_nat start)
         | None => full_email
         end)
      reply_patterns full_email in
  replace full_email (py "*") [].

(** ** The script

    The directory walk and the PDF reader are the script's collaborators:
    a run is given the documents that [rglob] yields, in that order, each
    with the text of its pages ([None] where a page has no text). *)

Record document := { pdf_file : str; pages : list (option str) }.

(** The dictionary of one e-mail once [Path] and [FileName] are attached. *)
Record email := { Path : str; FileName : str; fields : headers }.

(** [os.path.basename] *)
Fixpoint upto_slash (s : str) : str :=
  match s with
  | [] => []
  | c :: s' => if Ascii.eqb c "/"%char then [] else c :: upto_slash s'
  end.

Definition basename (path : str) : str := rev (upto_slash (rev path)).

Fixpoint str_ltb (a b : str) : bool :=
  match a, b with
  | _, [] => false
  | [], _ :: _ => true
  | x :: a', y :: b' =>
      (code x <? code y)%N || ((code x =? code y)%N && str_ltb a' b')
  end.

(** [sorted(emails, key=lambda email: email["Sent"], reverse=True)]: newest
    first, e-mails with equal keys in their original order. *)
Fixpoint insert_desc (e : email) (l : list email) : list email :=
  match l with
  | [] => [e]
  | y :: l' =>
      if str_ltb (Sent (fields e)) (Sent (fields y))
      then y :: insert_desc e l'
      else e :: l
  end.

Definition sorted_desc (l : list email) : list email :=
  fold_right insert_desc [] l.

(** The module-level variables of the script; [sorted_emails] is unbound
    until its first assignment. *)
Record globals := {
  emails : list email;
  total_emails : nat;
  failed : list str;
  sorted_emails : option (list email);
  printed : list str
}.

Definition init_globals : globals :=
  {| emails := []; total_emails := 0; failed := [];
     sorted_emails := None; printed := [] |}.

Definition pages_notice : str :=
  [LF] ++ py " ** Pages has been removed, see source for all pages **".

Section Script.

Variable parser_parse : str -> result datetime.

(** One pass of the loop over the documents. *)
Definition process (g : globals) (d : document) : globals :=
  let total_emails := total_emails g + 1 in
  let full_text :=
    join [LF]
      (map (fun page => match page with Some t => t | None => [] end)
           (firstn 2 (pages d))) in
  match parse_first_email parser_parse full_text with
  | None =>
      {| emails := emails g; total_emails := total_emails;
         failed := failed g ++ [pdf_file d];
         sorted_emails := sorted_emails g;
         printed := printed g ++ [py "Failed to parse " ++ pdf_file d] |}
  | Some h =>
      let h :=
        if truthy (Content h) then
          let content := remove_trailing_text (Content h) in
          set_Content h
            (if 2 <? length (pages d) then content ++ pages_notice
             else content)
        else h in
      let e :=
        {| Path := pdf_file d; FileName := basename (pdf_file d);
           fields := h |} in
      let emails := emails g ++ [e] in
      {| emails := emails; total_emails := total_emails;
         failed := failed g;
         sorted_emails := Some (sorted_desc emails);
         printed :=
           printed g ++ [py "Successfully parsed " ++ pdf_file d ++ py " "] |}
  end.

Definition fieldnames : list str :=
  [py "Path"; py "FileName"; py "From"; py "To"; py "Sent"; py "Subject";
   py "Content"].

Definition row (e : email) : list str :=
  [Path e; FileName e; From (fields e); To (fields e); Sent (fields e);
   Subject (fields e); Content (fields e)].

(** The summary written to [STATS_FILE], under its key ["pdf"]. *)
Record stats := {
  successfull : nat;
  total : nat;
  stats_failed : list str
}.

(** What a run leaves behind: the rows of [CSV_FILE] and the summary of
    [STATS_FILE] ([None] for a file that was never opened), what was
    printed, and the exception that ended the run, if one did. *)
Record outcome := {
  csv_file : option (list (list str));
  stats_file : option stats;
  stdout : list str;
  raised : option exn
}.

Definition decimal (n : nat) : str :=
  py (DecimalString.NilEmpty.string_of_uint (Nat.to_uint n)).

Definition main (CSV_FILE : str) (docs : list document) : outcome :=
  let g := fold_left process docs init_globals in
  (* with open(CSV_FILE, "w"): writer.writeheader() *)
  let written := [fieldnames] in
  match sorted_emails g with
  | None =>
      (* for email in sorted_emails: the name is not bound *)
      {| csv_file := Some written; stats_file := None;
         stdout := printed g; raised := Some NameError |}
  | Some sorted_emails =>
      {| csv_file := Some (written ++ map row sorted_emails);
         stats_file :=
           Some {| successfull := length sorted_emails;
                   total := total_emails g;
                   stats_failed := failed g |};
         stdout :=
           printed g
           ++ [py "Parsed " ++ decimal (length sorted_emails)
               ++ py " emails into " ++ CSV_FILE];
         raised := None |}
  end.

End Script.

(** ** A date parser for the examples

    The values [dateutil] gives for the three date strings that the
    examples below pass to it. *)

Fixpoint str_eqb (a b : str) : bool :=
  match a, b with
  | [], [] => true
  | x :: a', y :: b' => Ascii.eqb x y && str_eqb a' b'
  | _, _ => false
  end.

Definition example_parser (date_str : str) : result datetime :=
  if str_eqb date_str (py "Jan 5 2024 10:00") then
    Ok (mk_datetime 2024 1 5 10 0 0 0 None)
  else if str_eqb date_str (py "Mon, 3 Mar 2014 10:15:00 +0100") then
    Ok (mk_datetime 2014 3 3 10 15 0 0 (Some 3600%Z))
  else if str_eqb date_str (py "0001-01-01 00:00:00 +01:00") then
    Ok (mk_datetime 1 1 1 0 0 0 0 (Some 3600%Z))
  else Raise ParserError.

(** A text given line by line. *)
Definition text_of (lines : list str) : str := join [LF] lines.

(** * Notions used to state the properties *)

(** The character in front of position [k] of [s] ([prev] in front of the
    whole string). *)
Definition char_before (prev : option ascii) (s : str) (k : nat)
    : option ascii :=
  match k with
  | O => prev
  | S j => nth_error s j
  end.

(** The matcher [m] accepts at position [k] of [s]. *)
Definition matches_at (m : cont) (s : str) (k : nat) : bool :=
  m (char_before None s k) (skipn k s).

(** A match stays a match when the string is extended on the right. *)
Definition extends (m : cont) : Prop :=
  forall prev t u, m prev t = true -> m prev (t ++ u) = true.

(** No match is empty at the end of the string. *)
Definition consuming (m : cont) : Prop := forall prev, m prev [] = false.

(** Case-insensitive occurrence of [needle] at the head of [t], the
    matcher behind [s.lower().find(needle)]. *)
Definition m_find (needle : str) : cont :=
  fun _ t => startswith (lower t) needle.

(** Cut [s] at the leftmost match of [m]. *)
Definition cut (m : cont) (s : str) : str :=
  match search m s with
  | Some i => firstn i s
  | None => s
  end.

(** The first pass of [remove_trailing_text]. *)
Definition cut_disclaimer (s : str) : str :=
  match search (m_find (py "the information contained in this")) s with
  | Some i => cut (m_find (py "please note")) (firstn i s)
  | None => s
  end.

(** The passes of [remove_trailing_text] that come after the first. *)
Definition later_cuts (s : str) : str :=
  cut (re_on_wrote accept)
    (cut (re_den_skrev accept)
       (cut (m_find (py "sendt fra min "))
          (cut (m_find (py "sent from my ")) s))).

(** All the truncation passes, in the order of the source. *)
Definition cuts (s : str) : str := later_cuts (cut_disclaimer s).

(** [s] without its asterisks. *)
Definition without_stars (s : str) : str :=
  filter (fun c => negb (Ascii.eqb c STAR)) s.

(** The continuation [k] keeps accepting when [u] is appended to the rest of
    the string, at the positions that satisfy [Q]. *)
Definition carries (Q : option ascii -> str -> Prop) (u : str) (k : cont)
    : Prop :=
  forall prev t, Q prev t -> k prev t = true -> k prev (t ++ u) = true.

(** The last character of [t], or [prev] when [t] is empty. *)
Definition last_char (prev : option ascii) (t : str) : option ascii :=
  fold_left (fun _ c => Some c) t prev.

(** The string ends, [prev] included, in a character that is no word
    character. *)
Definition ends_nonword (prev : option ascii) (t : str) : Prop :=
  isword_opt (last_char prev t) = false.

(** The header fields a line can fill. *)
Inductive header := HFrom | HTo | HSent | HSubject.

Definition header_eqb (a b : header) : bool :=
  match a, b with
  | HFrom, HFrom | HTo, HTo | HSent, HSent | HSubject, HSubject => true
  | _, _ => false
  end.

Definition field (k : header) (h : headers) : str :=
  match k with
  | HFrom => From h
  | HTo => To h
  | HSent => Sent h
  | HSubject => Subject h
  end.

Definition set_field (k : header) (h : headers) (v : str) : headers :=
  match k with
  | HFrom => set_From h v
  | HTo => set_To h v
  | HSent => set_Sent h v
  | HSubject => set_Subject h v
  end.

(** The three mandatory fields are filled. *)
Definition filled (h : headers) : bool :=
  truthy (From h) && truthy (To h) && truthy (Sent h).

(** What [parse_first_email] returns for the fields the scan ends with. *)
Definition result_of (h : headers) : option headers :=
  if filled h then Some h else None.

(** [body] is [l] with some of its elements left out. *)
Inductive sublist {A : Type} : list A -> list A -> Prop :=
| sublist_nil : sublist [] []
| sublist_skip x body l : sublist body l -> sublist body (x :: l)
| sublist_keep x body l : sublist body l -> sublist (x :: body) (x :: l).

(** What a line adds to [Content] when it is taken as body text. *)
Definition piece (line : str) : str :=
  py " " ++ [LF] ++ clean_text (strip line).

Section ScanNotions.

Variable parser_parse : str -> result datetime.

(** The value a line offers for a header: the cleaned text behind the
    header's keyword, when the line starts with that keyword. *)
Definition offer (k : header) (line : str) : option str :=
  let line := strip line in
  match k with
  | HFrom =>
      if startswith (lower line) (py "from:") then
        Some (clean_text (strip_chars (strip (slice_from line 5)) [QUOTE]))
      else None
  | HTo =>
      if startswith (lower line) (py "to:") then
        Some (clean_text (strip_chars (strip (slice_from line 3)) [QUOTE]))
      else None
  | HSent =>
      if startswith (lower line) (py "sent:")
         || startswith (lower line) (py "date:") then
        let raw_date :=
          clean_text
            (strip_chars (strip (nth 1 (split_once line ":"%char) []))
                         [QUOTE]) in
        Some (or_else (normalize_date parser_parse raw_date) raw_date)
      else None
  | HSubject =>
      if startswith (lower line) (py "subject:") then
        Some (clean_text
                (strip_chars (strip (nth 1 (split_once line ":"%char) []))
                             [QUOTE]))
      else None
  end.

Definition offers (k : header) (line : str) : bool :=
  match offer k line with Some _ => true | None => false end.

Definition offers_value (k : header) (line : str) : bool :=
  match offer k line with Some v => truthy v | None => false end.

(** The line is taken as the value of a header that is still empty. *)
Definition captured (h : headers) (line : str) : bool :=
  existsb (fun k => offers k line && negb (truthy (field k h)))
          [HFrom; HTo; HSent; HSubject].

Definition princess_rule (h : headers) (line : str) : bool :=
  found (find (lower (From h)) (py "kronprinsessen"))
  && found (find (lower (strip line)) (py "den"))
  && found (find (lower (strip line)) (py "skrev")).

Definition epstein_rule (h : headers) (line : str) : bool :=
  found (find (lower (From h)) (py "epstein"))
  && (found (find (lower (strip line)) (py "*****************************"))
      || found (find (lower (strip line))
           (py "the information contained in this communication is"))).

(** The state after all of [lines], when no line stops the scan. *)
Fixpoint runs (h : headers) (lines : list str) : option headers :=
  match lines with
  | [] => Some h
  | line :: rest =>
      match step parser_parse h line with
      | Continue h' => runs h' rest
      | Break => None
      end
  end.

(** A line stops the scan while a mandatory field is still empty. *)
Fixpoint stops_unfilled (h : headers) (lines : list str) : bool :=
  match lines with
  | [] => false
  | line :: rest =>
      match step parser_parse h line with
      | Continue h' => stops_unfilled h' rest
      | Break => negb (filled h)
      end
  end.

End ScanNotions.

(** The instant a [datetime] denotes, in microseconds of UTC (a naive value
    read as UTC). *)
Definition instant (dt : datetime) : Z :=
  (wall dt - 1000000 * match tzinfo dt with Some off => off | None => 0 end)%Z.

(** The wall-clock reading lies in the years 1 to 9999. *)
Definition in_years (w : Z) : bool := ((0 <=? w) && (w <=? MAX_WALL))%Z.

(** The string starts with a whitespace character. *)
Definition hd_space (s : str) : bool :=
  match s with c :: _ => isspace c | [] => false end.

(** No two whitespace characters stand side by side. *)
Fixpoint single_spaced (s : str) : bool :=
  match s with
  | a :: t => negb (isspace a && hd_space t) && single_spaced t
  | [] => true
  end.

(** The only whitespace character of the string is the blank. *)
Definition blank_only (s : str) : Prop :=
  Forall (fun c => isspace c = true -> c = " "%char) s.

(** The string has no run of two or more whitespace characters. *)
Definition no_space_run (s : str) : Prop :=
  forall pre a b post,
    s = pre ++ a :: b :: post -> isspace a = true -> isspace b = true -> False.

(** Case analysis over the 256 characters. *)
Ltac each_char c :=
  destruct c as [[] [] [] [] [] [] [] []]; vm_compute; try reflexivity;
  try discriminate; auto.

(** ** Notions for the script *)

(** The text the script hands to [parse_first_email] for a document. *)
Definition full_text (d : document) : str :=
  join [LF]
    (map (fun page => match page with Some t => t | None => [] end)
         (firstn 2 (pages d))).

(** The document yields a record. *)
Definition parses (parse : str -> result datetime) (d : document) : bool :=
  match parse_first_email parse (full_text d) with
  | Some _ => true
  | None => false
  end.

(** [a] is not older than [b], by the order of the [Sent] strings. *)
Definition not_older (a b : email) : Prop :=
  str_ltb (Sent (fields a)) (Sent (fields b)) = false.

(** The e-mails of [l] whose [Sent] is [sent]. *)
Definition sent_at (sent : str) (l : list email) : list email :=
  filter (fun e => str_eqb (Sent (fields e)) sent) l.

(** Two documents for the examples: one holds a message, one has no text. *)
Definition example_docs : list document :=
  [ {| pdf_file := py "scans/empty.pdf"; pages := [None] |};
    {| pdf_file := py "scans/alice.pdf";
       pages := [Some (text_of [py "From: Alice"; py "To: Bob";
                                py "Sent: Jan 5 2024 10:00"; py "Hello"])] |} ].

(** ** Notions for the scan *)

(** The line is not blank. *)
Definition nonblank (line : str) : bool := truthy (strip line).

(** The sender value names one of the two senders the early-termination
    rules are about. *)
Definition marked (sender : str) : bool :=
  found (find (lower sender) (py "kronprinsessen"))
  || found (find (lower sender) (py "epstein")).

(** The string is on one line and has no whitespace at its ends. *)
Definition one_line (v : str) : Prop :=
  ~ In LF v /\ ~ In CR v
  /\ (forall c t, v = c :: t -> isspace c = false)
  /\ (forall t c, v = t ++ [c] -> isspace c = false).

(** ** Notions for the order of dates *)

(** Lexicographic order on (year, month, day). *)
Definition ymd_lt (a b : Z * Z * Z) : bool :=
  let '(y1, m1, d1) := a in
  let '(y2, m2, d2) := b in
  ((y1 <? y2) || ((y1 =? y2) && ((m1 <? m2) || ((m1 =? m2) && (d1 <? d2)))))%Z.

(** A date of the first 400 years. *)
Definition ymd_ok (a : Z * Z * Z) : bool :=
  let '(y, m, d) := a in
  ((1 <=? y) && (y <=? 400) && (1 <=? m) && (m <=? 12)
   && (1 <=? d) && (d <=? 31))%Z.

(** The dates of the [fuel] days from day [r] on, [cur] being the date of
    day [r], are dates of the first 400 years, each before the next. *)
Fixpoint chain_from (fuel : nat) (r : Z) (cur : Z * Z * Z) : bool :=
  match fuel with
  | O => true
  | S f =>
      ymd_ok cur
      && match f with
         | O => true
         | S _ =>
             let nxt := ord2ymd (r + 1)%Z in
             ymd_lt cur nxt && chain_from f (r + 1)%Z nxt
         end
  end.

(** The date, the time and the fraction of [isoformat]. *)
Definition date_part (days : Z) : str :=
  let '(y, m, d) := ord2ymd days in
  dec 4 y ++ py "-" ++ dec 2 m ++ py "-" ++ dec 2 d.

Definition time_part (sod : Z) : str :=
  (dec 2 (sod / 3600) ++ py ":" ++ dec 2 (sod / 60 mod 60)
   ++ py ":" ++ dec 2 (sod mod 60))%Z.

Definition frac_part (us : Z) : str :=
  if (us =? 0)%Z then [] else py "." ++ dec 6 us.

(** The row is a valid record with its provenance: the mandatory fields
    are filled, and [FileName] is the last component of [Path]. *)
Definition valid_row (e : email) : Prop :=
  From (fields e) <> [] /\ To (fields e) <> [] /\ Sent (fields e) <> []
  /\ ~ In "/"%char (FileName e)
  /\ exists dir, Path e = dir ++ FileName e.

(** ** Files the reader cannot read

    [pdfplumber] may raise on a file of the walk: while opening it, while
    listing its pages or while extracting the text of one of its first two
    pages.  All of this happens before anything is recorded or printed for
    the file, and nothing in the script catches the exception. *)

Inductive pdf :=
| Readable (d : document)
| Unreadable (path : str).

Definition unreadable (f : pdf) : bool :=
  match f with
  | Unreadable _ => true
  | Readable _ => false
  end.

(** The documents in front of the first file that cannot be read. *)
Fixpoint readable_prefix (files : list pdf) : list document :=
  match files with
  | Readable d :: rest => d :: readable_prefix rest
  | _ => []
  end.

Section Run.

Variable parser_parse : str -> result datetime.

(** The loop over the files: the module-level variables it ends with, or
    what had been printed when the reader raised. *)
Fixpoint walk (g : globals) (files : list pdf) : globals + list str :=
  match files with
  | [] => inl g
  | Readable d :: rest => walk (process parser_parse g d) rest
  | Unreadable _ :: _ => inr (printed g)
  end.

(** The script on the files of the walk.  An exception of the reader ends
    it inside the loop, before either file is opened for writing; when
    every file is read, the run is [main] on the documents. *)
Definition script (CSV_FILE : str) (files : list pdf) : outcome :=
  match walk init_globals files with
  | inr out =>
      {| csv_file := None; stats_file := None; stdout := out;
         raised := Some PdfError |}
  | inl _ => main parser_parse CSV_FILE (readable_prefix files)
  end.

End Run.

(** ** Strings beyond code point 255

    [str.lower] keeps the length of every string of code points 0..255, but
    not of every Python string: it turns U+0130 (capital I with dot above)
    into the two code points U+0069 U+0307.  This second embedding of
    [remove_trailing_text] runs over the code points 0..255 together with
    those two, so that the text and its lower-cased copy can differ in
    length as they do in Python. *)

Module Wide.

Inductive char :=
| Latin1 (c : ascii)
| CapitalIDot
| CombiningDot.

Definition text := list char.

(** A string of code points 0..255 as a text. *)
Definition of_str (s : str) : text := map Latin1 s.

Definition eqb (a b : char) : bool :=
  match a, b with
  | Latin1 x, Latin1 y => Ascii.eqb x y
  | CapitalIDot, CapitalIDot => true
  | CombiningDot, CombiningDot => true
  | _, _ => false
  end.

(** What [str.lower] makes of one character. *)
Definition lower_one (c : char) : text :=
  match c with
  | Latin1 a => [Latin1 (lower_char a)]
  | CapitalIDot => [Latin1 "i"%char; CombiningDot]
  | CombiningDot => [CombiningDot]
  end.

(** [s.lower()] *)
Definition lower (s : text) : text := flat_map lower_one s.

(** [s.startswith(p)] *)
Fixpoint startswith (s p : text) : bool :=
  match p, s with
  | [], _ => true
  | _ :: _, [] => false
  | a :: p', c :: s' => eqb c a && startswith s' p'
  end.

Fixpoint search_from (m : option char -> text -> bool)
    (prev : option char) (s : text) (i : nat) : option nat :=
  if m prev s then Some i
  else match s with
       | [] => None
       | c :: s' => search_from m (Some c) s' (S i)
       end.

Definition search (m : option char -> text -> bool) (s : text) : option nat :=
  search_from m None s 0.

(** [s.find(sub)] *)
Definition find (s sub : text) : Z :=
  match search (fun _ t => startswith t sub) s with
  | Some i => Z.of_nat i
  | None => (-1)%Z
  end.

(** [s[:i]] *)
Definition slice_to (s : text) (i : Z) : text :=
  if (i <? 0)%Z then firstn (Z.to_nat (Z.of_nat (length s) + i)) s
  else firstn (Z.to_nat i) s.

Fixpoint sub_go (m : text -> option nat) (repl : text) (skip : nat) (s : text)
    : text :=
  match s with
  | [] => []
  | c :: s' =>
      match skip with
      | S n => sub_go m repl n s'
      | O =>
          match m s with
          | Some (S n) => repl ++ sub_go m repl n s'
          | _ => c :: sub_go m repl 0 s'
          end
      end
  end.

(** [s.replace(old, new)] for a non-empty [old]. *)
Definition replace (s old new : text) : text :=
  sub_go (fun t => if startswith t old then Some (length old) else None)
         new 0 s.

Definition cont := option char -> text -> bool.
Definition regex := cont -> cont.

Definition accept : cont := fun _ _ => true.

Definition r_char (p : char -> bool) : regex :=
  fun k _ t =>
    match t with
    | c :: t' => p c && k (Some c) t'
    | [] => false
    end.

(** The one-character lower-case form that [re.IGNORECASE] compares. *)
Definition tolower (c : char) : char :=
  match c with
  | Latin1 a => Latin1 (lower_char a)
  | CapitalIDot => Latin1 "i"%char
  | CombiningDot => CombiningDot
  end.

(** A literal of a pattern under [re.IGNORECASE]. *)
Fixpoint r_lit_ci (l : str) : regex :=
  match l with
  | [] => fun k => k
  | a :: l' =>
      fun k => r_char (fun c => eqb (tolower c) (Latin1 (lower_char a)))
                      (r_lit_ci l' k)
  end.

Definition r_star (p : char -> bool) : regex :=
  fun k =>
    fix go (prev : option char) (t : text) : bool :=
      k prev t
      || match t with
         | c :: t' => p c && go (Some c) t'
         | [] => false
         end.

Definition r_plus (p : char -> bool) : regex :=
  fun k => r_char p (r_star p k).

Definition r_opt (r : regex) : regex :=
  fun k prev t => r k prev t || k prev t.

(** [\s]: neither of the two further code points is white space. *)
Definition isspace (c : char) : bool :=
  match c with
  | Latin1 a => isspace a
  | _ => false
  end.

(** [\w]: U+0130 is a letter, U+0307 a combining mark. *)
Definition isword (c : char) : bool :=
  match c with
  | Latin1 a => isword a
  | CapitalIDot => true
  | CombiningDot => false
  end.

Definition isword_opt (c : option char) : bool :=
  match c with Some c => isword c | None => false end.

Definition r_wordb : regex :=
  fun k prev t => xorb (isword_opt prev) (isword_opt (hd_error t)) && k prev t.

Definition dot (c : char) : bool := negb (eqb c (Latin1 LF)).

Definition re_search (r : regex) (s : text) : option nat :=
  search (r accept) s.

(** [Den.*?kl\..*?skrev] *)
Definition re_den_skrev : regex :=
  fun k =>
    r_lit_ci (py "Den")
      (r_star dot (r_lit_ci (py "kl.") (r_star dot (r_lit_ci (py "skrev") k)))).

(** [\bOn\s+.*?\bwrote:?\b] *)
Definition re_on_wrote : regex :=
  fun k =>
    r_wordb
      (r_lit_ci (py "On")
         (r_plus isspace
            (r_star dot
               (r_wordb
                  (r_lit_ci (py "wrote") (r_opt (r_lit_ci (py ":")) (r_wordb k))))))).

Definition reply_patterns : list regex := [re_den_skrev; re_on_wrote].

Definition remove_trailing_text (full_email : text) : text :=
  let disclaimer_index :=
    find (lower full_email) (of_str (py "the information contained in this")) in
  let full_email :=
    if found disclaimer_index then
      let full_email := slice_to full_email disclaimer_index in
      let please_note_index :=
        find (lower full_email) (of_str (py "please note")) in
      if found please_note_index then slice_to full_email please_note_index
      else full_email
    else full_email in
  let sent_from_index := find (lower full_email) (of_str (py "sent from my ")) in
  let full_email :=
    if found sent_from_index then slice_to full_email sent_from_index
    else full_email in
  let sent_from_index :=
    find (lower full_email) (of_str (py "sendt fra min ")) in
  let full_email :=
    if found sent_from_index then slice_to full_email sent_from_index
    else full_email in
  let full_email :=
    fold_left
      (fun full_email p =>
         match re_search p full_email with
         | Some start => slice_to full_email (Z.of_nat start)
         | None => full_email
         end)
      reply_patterns full_email in
  replace full_email (of_str (py "*")) [].

End Wide.


(** * Properties *)

(** ** Characters *)

Lemma isspace_not_word (c : ascii) : isspace c = true -> isword c = false.
Proof. each_char c. Qed.

Lemma linebreak_isspace (c : ascii) : is_linebreak c = true -> isspace c = true.
Proof. each_char c. Qed.

Lemma eqb_true (a b : ascii) : Ascii.eqb a b = true -> a = b.
Proof. apply Ascii.eqb_eq. Qed.

(** ** Suffixes, prefixes and stripping *)

Lemma lstrip_by_suffix (p : ascii -> bool) (s : str) :
  exists a, s = a ++ lstrip_by p s /\ forallb p a = true.
Proof.
  induction s as [|c s IH]; simpl.
  - exists []. auto.
  - destruct (p c) eqn:E.
    + destruct IH as [a [Ha Hp]]. exists (c :: a). simpl.
      rewrite E, Hp. split; [congruence | reflexivity].
    + exists []. auto.
Qed.

Lemma lstrip_by_head (p : ascii -> bool) (s : str) c t :
  lstrip_by p s = c :: t -> p c = false.
Proof.
  induction s as [|x s IH]; simpl; [discriminate|].
  destruct (p x) eqn:E; auto. intros H. injection H as -> _. exact E.
Qed.

Lemma rstrip_by_prefix (p : ascii -> bool) (s : str) :
  exists b, s = rstrip_by p s ++ b.
Proof.
  unfold rstrip_by. destruct (lstrip_by_suffix p (rev s)) as [a [Ha _]].
  exists (rev a). rewrite <- rev_app_distr, <- Ha, rev_involutive. reflexivity.
Qed.

Lemma rstrip_by_last (p : ascii -> bool) (s : str) t c :
  rstrip_by p s = t ++ [c] -> p c = false.
Proof.
  unfold rstrip_by. intros H.
  apply (f_equal (@rev ascii)) in H.
  rewrite rev_involutive, rev_app_distr in H. simpl in H.
  eapply lstrip_by_head; eauto.
Qed.

Lemma strip_by_infix (p : ascii -> bool) (s : str) :
  exists a b, s = a ++ strip_by p s ++ b.
Proof.
  unfold strip_by. destruct (lstrip_by_suffix p s) as [a [Ha _]].
  destruct (rstrip_by_prefix p (lstrip_by p s)) as [b Hb].
  exists a, b. rewrite <- Hb. exact Ha.
Qed.

Lemma strip_by_head (p : ascii -> bool) (s : str) c t :
  strip_by p s = c :: t -> p c = false.
Proof.
  unfold strip_by. intros H.
  destruct (rstrip_by_prefix p (lstrip_by p s)) as [b Hb].
  rewrite H in Hb. simpl in Hb. eapply lstrip_by_head; eauto.
Qed.

Lemma strip_by_last (p : ascii -> bool) (s : str) t c :
  strip_by p s = t ++ [c] -> p c = false.
Proof. unfold strip_by. apply rstrip_by_last. Qed.

(** ** The replacement engine *)

Lemma sub_go_skip (m : str -> option nat) (r : str) :
  forall s n, sub_go m r n s = sub_go m r 0 (skipn n s).
Proof.
  induction s as [|c s IH]; intros [|n]; try reflexivity.
  simpl sub_go at 1. rewrite IH. reflexivity.
Qed.

Lemma re_sub_cons (m : str -> option nat) (r : str) c s :
  re_sub m r (c :: s) =
  match m (c :: s) with
  | Some (S n) => r ++ re_sub m r (skipn n s)
  | _ => c :: re_sub m r s
  end.
Proof.
  unfold re_sub. simpl sub_go at 1.
  destruct (m (c :: s)) as [[|n]|]; try reflexivity.
  rewrite sub_go_skip. reflexivity.
Qed.

(** A pattern that matches nowhere in [s] leaves [s] as it is. *)
Lemma re_sub_no_match (m : str -> option nat) (r : str) :
  forall s, (forall a b, s = a ++ b -> m b = None) -> re_sub m r s = s.
Proof.
  induction s as [|c s IH]; intros H; [reflexivity|].
  rewrite re_sub_cons, (H [] (c :: s) eq_refl). f_equal.
  apply IH. intros a b ->. apply (H (c :: a)). reflexivity.
Qed.

(** ** Whitespace after the collapse *)

Lemma span_len_skipn (p : ascii -> bool) (s : str) :
  skipn (span_len p s) s = lstrip_by p s.
Proof.
  induction s as [|c s IH]; simpl; [reflexivity|].
  destruct (p c); simpl; auto.
Qed.

Lemma lstrip_by_length (p : ascii -> bool) (s : str) :
  length (lstrip_by p s) <= length s.
Proof.
  induction s as [|c s IH]; simpl; [lia|]. destruct (p c); simpl; lia.
Qed.

Lemma hd_space_lstrip (s : str) : hd_space (lstrip_by isspace s) = false.
Proof.
  destruct (lstrip_by isspace s) as [|c t] eqn:E; [reflexivity|].
  simpl. eapply lstrip_by_head; eauto.
Qed.

Lemma collapse_cons c s :
  re_sub m_spaces (py " ") (c :: s) =
  if isspace c then " "%char :: re_sub m_spaces (py " ") (lstrip_by isspace s)
  else c :: re_sub m_spaces (py " ") s.
Proof.
  rewrite re_sub_cons. unfold m_spaces. simpl span_len.
  destruct (isspace c); [|reflexivity].
  rewrite span_len_skipn. reflexivity.
Qed.

Lemma single_spaced_cons a t :
  single_spaced (a :: t) = negb (isspace a && hd_space t) && single_spaced t.
Proof. reflexivity. Qed.

Lemma collapse_good :
  forall n s, length s <= n ->
    let out := re_sub m_spaces (py " ") s in
    hd_space out = hd_space s /\ single_spaced out = true /\ blank_only out.
Proof.
  induction n as [|n IH]; intros s Hn.
  - destruct s; [|simpl in Hn; lia]. repeat split. constructor.
  - destruct s as [|c s]; [repeat split; constructor|].
    simpl in Hn. cbv zeta. rewrite collapse_cons.
    destruct (isspace c) eqn:E.
    + destruct (IH (lstrip_by isspace s)) as [H1 [H2 H3]].
      { pose proof (lstrip_by_length isspace s). lia. }
      cbv zeta in *. rewrite hd_space_lstrip in H1.
      repeat split.
      * simpl. rewrite E. reflexivity.
      * rewrite single_spaced_cons, H1, H2, andb_false_r. reflexivity.
      * constructor; auto.
    + destruct (IH s) as [H1 [H2 H3]]; [lia|]. cbv zeta in *.
      repeat split.
      * rewrite single_spaced_cons, E, H2. reflexivity.
      * constructor; auto. rewrite E. discriminate.
Qed.

Lemma single_spaced_no_run (s : str) :
  single_spaced s = true -> no_space_run s.
Proof.
  intros H pre. revert s H.
  induction pre as [|x pre IH]; intros s H a b post -> Ha Hb; simpl in H.
  - rewrite Ha, Hb in H. discriminate.
  - apply andb_prop in H as [_ H]. eapply IH; eauto.
Qed.

Lemma no_space_run_infix (x t y : str) :
  no_space_run (x ++ t ++ y) -> no_space_run t.
Proof.
  intros H pre a b post -> Ha Hb.
  apply (H (x ++ pre) a b (post ++ y)); auto.
  rewrite <- !app_assoc. reflexivity.
Qed.

Lemma blank_only_infix (x t y : str) : blank_only (x ++ t ++ y) -> blank_only t.
Proof.
  unfold blank_only. intros H.
  apply Forall_app in H as [_ H]. apply Forall_app in H as [H _]. exact H.
Qed.

Lemma blank_only_not_in (s : str) (c : ascii) :
  blank_only s -> isspace c = true -> c <> " "%char -> ~ In c s.
Proof.
  intros H Hc Hne Hin. unfold blank_only in H.
  rewrite Forall_forall in H. apply Hne. auto.
Qed.

Lemma m_crlf_none (s : str) :
  ~ In CR s -> forall a b, s = a ++ b -> m_crlf b = None.
Proof.
  intros H a b ->. unfold m_crlf. destruct b as [|c b]; [reflexivity|].
  simpl. destruct (Ascii.eqb c CR) eqn:E; [|reflexivity].
  apply eqb_true in E. subst c. exfalso. apply H.
  apply in_or_app. right. left. reflexivity.
Qed.

(** What [clean_text] returns is the stripped collapse of the text it has
    filtered, and the collapse contains single blanks only. *)
Lemma clean_text_shape (text : str) :
  exists w, clean_text text = strip w /\ single_spaced w = true /\ blank_only w.
Proof.
  unfold clean_text.
  set (x := replace (re_sub m_escape [] (replace text (py "=br>") [LF]))
                    (py "=8E") []).
  destruct (collapse_good (length x) x (le_n _)) as [_ [H2 H3]].
  cbv zeta in *. set (w := re_sub m_spaces (py " ") x) in *.
  exists w. split; [|auto].
  rewrite (re_sub_no_match m_crlf [LF] w); [reflexivity|].
  apply m_crlf_none. apply blank_only_not_in; auto. discriminate.
Qed.

(** C9: what [clean_text] returns has no newline and no carriage return, no
    two whitespace characters in a row, and no whitespace at either end; the
    newline that replaces the soft-break marker [=br>] ends as one blank. *)
Theorem clean_text_tidy (text : str) :
  ~ In LF (clean_text text) /\ ~ In CR (clean_text text)
  /\ no_space_run (clean_text text)
  /\ (forall c t, clean_text text = c :: t -> isspace c = false)
  /\ (forall t c, clean_text text = t ++ [c] -> isspace c = false)
  /\ clean_text (py "a=br>b") = py "a b".
Proof.
  destruct (clean_text_shape text) as [w [-> [Hs Hb]]].
  destruct (strip_by_infix isspace w) as [a [b Hw]]. fold (strip w) in Hw.
  assert (Hb' : blank_only (strip w)).
  { apply (blank_only_infix a _ b). rewrite <- Hw. exact Hb. }
  repeat split.
  - apply blank_only_not_in; auto. discriminate.
  - apply blank_only_not_in; auto. discriminate.
  - apply (no_space_run_infix a _ b). rewrite <- Hw.
    apply single_spaced_no_run. exact Hs.
  - intros c t. apply strip_by_head.
  - intros t c. apply strip_by_last.
Qed.

(** ** Searching *)

Lemma search_from_spec (m : cont) :
  forall s prev i,
    match search_from m prev s i with
    | Some j =>
        exists k, j = i + k /\ k <= length s
                  /\ m (char_before prev s k) (skipn k s) = true
                  /\ forall k', k' < k ->
                       m (char_before prev s k') (skipn k' s) = false
    | None =>
        forall k, k <= length s -> m (char_before prev s k) (skipn k s) = false
    end.
Proof.
  induction s as [|c s IH]; intros prev i; simpl search_from.
  - destruct (m prev []) eqn:E.
    + exists 0. split; [lia|]. split; [simpl; lia|]. split; [exact E|].
      intros k' Hk. lia.
    + intros k Hk. simpl in Hk. assert (k = 0) by lia. subst. exact E.
  - destruct (m prev (c :: s)) eqn:E.
    + exists 0. split; [lia|]. split; [simpl; lia|]. split; [exact E|].
      intros k' Hk. lia.
    + specialize (IH (Some c) (S i)).
      destruct (search_from m (Some c) s (S i)) as [j|].
      * destruct IH as [k [Hj [Hk [Hm Hmin]]]].
        exists (S k). split; [lia|]. split; [simpl; lia|]. split.
        -- simpl. destruct k; exact Hm.
        -- intros [|k'] Hk'; [exact E|].
           specialize (Hmin k' ltac:(lia)). simpl. destruct k'; exact Hmin.
      * intros [|k] Hk; [exact E|]. simpl in Hk.
        specialize (IH k ltac:(lia)). destruct k; exact IH.
Qed.

Lemma search_some (m : cont) (s : str) (i : nat) :
  search m s = Some i ->
  i <= length s /\ matches_at m s i = true
  /\ forall k, k < i -> matches_at m s k = false.
Proof.
  unfold search. intros H. pose proof (search_from_spec m s None 0) as S.
  rewrite H in S. destruct S as [k [-> [Hk [Hm Hmin]]]]. auto.
Qed.

Lemma search_none (m : cont) (s : str) :
  search m s = None -> forall k, k <= length s -> matches_at m s k = false.
Proof.
  unfold search. intros H. pose proof (search_from_spec m s None 0) as S.
  rewrite H in S. exact S.
Qed.

Lemma search_none_intro (m : cont) (s : str) :
  (forall k, k <= length s -> matches_at m s k = false) -> search m s = None.
Proof.
  intros H. destruct (search m s) as [i|] eqn:E; [|reflexivity].
  apply search_some in E as [Hi [Hm _]]. rewrite H in Hm; [discriminate|lia].
Qed.

Lemma search_some_intro (m : cont) (s : str) (i : nat) :
  i <= length s -> matches_at m s i = true ->
  (forall k, k < i -> matches_at m s k = false) ->
  search m s = Some i.
Proof.
  intros Hi Hm Hmin. destruct (search m s) as [j|] eqn:E.
  - apply search_some in E as [Hj [Hmj Hminj]].
    destruct (Nat.lt_trichotomy i j) as [L|[->|L]]; [|reflexivity|].
    + rewrite (Hminj i L) in Hm. discriminate.
    + rewrite (Hmin j L) in Hmj. discriminate.
  - rewrite (search_none m s E i Hi) in Hm. discriminate.
Qed.

Lemma char_before_app (p u : str) (k : nat) :
  k <= length p -> char_before None (p ++ u) k = char_before None p k.
Proof.
  destruct k as [|j]; [reflexivity|]. simpl. intros H.
  apply nth_error_app1. lia.
Qed.

Lemma skipn_app_le (p u : str) (k : nat) :
  k <= length p -> skipn k (p ++ u) = skipn k p ++ u.
Proof.
  intros H. rewrite skipn_app.
  replace (k - length p) with 0 by lia. reflexivity.
Qed.

(** A match inside a prefix is a match in the whole string. *)
Lemma matches_at_app (m : cont) (p u : str) (k : nat) :
  extends m -> k <= length p ->
  matches_at m p k = true -> matches_at m (p ++ u) k = true.
Proof.
  unfold matches_at. intros He Hk H.
  rewrite char_before_app, skipn_app_le by assumption. apply He. exact H.
Qed.

Lemma search_none_prefix (m : cont) (p u : str) :
  extends m -> search m (p ++ u) = None -> search m p = None.
Proof.
  intros He H. apply search_none_intro. intros k Hk.
  destruct (matches_at m p k) eqn:E; [|reflexivity].
  apply (matches_at_app m p u k He Hk) in E.
  rewrite (search_none _ _ H k) in E; [discriminate|].
  rewrite length_app. lia.
Qed.

Lemma matches_at_end (m : cont) (s : str) :
  consuming m -> matches_at m s (length s) = false.
Proof. intros Hc. unfold matches_at. rewrite skipn_all. apply Hc. Qed.

(** Nothing matches in front of the leftmost match. *)
Lemma search_some_prefix (m : cont) (s : str) (i : nat) :
  extends m -> consuming m ->
  search m s = Some i -> search m (firstn i s) = None.
Proof.
  intros He Hc H. apply search_some in H as [Hi [_ Hmin]].
  apply search_none_intro. intros k Hk.
  rewrite length_firstn in Hk.
  destruct (matches_at m (firstn i s) k) eqn:E; [|reflexivity].
  assert (k < i \/ k = length (firstn i s)) as [L| ->].
  { rewrite length_firstn. lia. }
  - apply (matches_at_app m _ (skipn i s) k He) in E.
    + rewrite firstn_skipn in E. rewrite (Hmin k L) in E. discriminate.
    + rewrite length_firstn. lia.
  - rewrite matches_at_end in E; auto.
Qed.

(** ** Cutting *)

Lemma cut_prefix (m : cont) (s : str) : exists u, s = cut m s ++ u.
Proof.
  unfold cut. destruct (search m s) as [i|].
  - exists (skipn i s). symmetry. apply firstn_skipn.
  - exists []. symmetry. apply app_nil_r.
Qed.

Lemma cut_clean (m : cont) (s : str) : search m s = None -> cut m s = s.
Proof. unfold cut. intros ->. reflexivity. Qed.

Lemma cut_is_clean (m : cont) (s : str) :
  extends m -> consuming m -> search m (cut m s) = None.
Proof.
  intros He Hc. unfold cut. destruct (search m s) as [i|] eqn:E; [|exact E].
  apply search_some_prefix; auto.
Qed.

(** ** Matchers that survive an extension of the string *)

Lemma startswith_nil (s : str) : startswith s [] = true.
Proof. destruct s; reflexivity. Qed.

Lemma startswith_app (t u p : str) :
  startswith t p = true -> startswith (t ++ u) p = true.
Proof.
  revert t. induction p as [|a p IH]; intros t H.
  - apply startswith_nil.
  - destruct t as [|c t]; simpl in *; [discriminate|].
    apply andb_prop in H as [-> H]. simpl. auto.
Qed.

Lemma m_find_extends (needle : str) : extends (m_find needle).
Proof.
  intros prev t u. unfold m_find, lower. rewrite map_app.
  apply startswith_app.
Qed.

Lemma m_find_consuming (needle : str) : needle <> [] -> consuming (m_find needle).
Proof. intros H prev. destruct needle; [congruence|reflexivity]. Qed.

Section Carrying.

Variable Q : option ascii -> str -> Prop.
Variable u : str.
Hypothesis Qstep : forall prev c t, Q prev (c :: t) -> Q (Some c) t.

Lemma carries_char (p : ascii -> bool) (k : cont) :
  carries Q u k -> carries Q u (r_char p k).
Proof.
  intros Hk prev [|c t] HQ; simpl; [discriminate|].
  intros H. apply andb_prop in H as [-> H]. simpl. eauto.
Qed.

Lemma carries_lit (l : str) :
  forall k, carries Q u k -> carries Q u (r_lit_ci l k).
Proof.
  induction l as [|a l IH]; intros k Hk; simpl; [exact Hk|].
  apply carries_char. auto.
Qed.

Lemma r_star_unfold (p : ascii -> bool) (k : cont) prev t :
  r_star p k prev t =
  k prev t || match t with
              | c :: t' => p c && r_star p k (Some c) t'
              | [] => false
              end.
Proof. destruct t; reflexivity. Qed.

Lemma carries_star (p : ascii -> bool) (k : cont) :
  carries Q u k -> carries Q u (r_star p k).
Proof.
  intros Hk prev t. revert prev.
  induction t as [|c t IH]; intros prev HQ H;
    rewrite r_star_unfold in H; rewrite r_star_unfold.
  - rewrite orb_false_r in H. rewrite (Hk prev [] HQ H). reflexivity.
  - apply orb_prop in H as [H|H].
    + rewrite (Hk prev (c :: t) HQ H). reflexivity.
    + apply andb_prop in H as [Hp H]. simpl.
      rewrite Hp, (IH (Some c) (Qstep _ _ _ HQ) H). apply orb_true_r.
Qed.

Lemma carries_plus (p : ascii -> bool) (k : cont) :
  carries Q u k -> carries Q u (r_plus p k).
Proof. intros Hk. apply carries_char. apply carries_star. exact Hk. Qed.

Lemma carries_opt (r : regex) (k : cont) :
  carries Q u (r k) -> carries Q u k -> carries Q u (r_opt r k).
Proof.
  intros Hr Hk prev t HQ H. unfold r_opt in *.
  apply orb_prop in H as [H|H].
  - rewrite (Hr prev t HQ H). reflexivity.
  - rewrite (Hk prev t HQ H). apply orb_true_r.
Qed.

Lemma carries_wordb (k : cont) :
  (forall prev, Q prev [] -> isword_opt prev = false) ->
  carries Q u k -> carries Q u (r_wordb k).
Proof.
  intros Hnil Hk prev t HQ H. unfold r_wordb in *.
  apply andb_prop in H as [Hb H]. rewrite (Hk prev t HQ H), andb_true_r.
  destruct t as [|c t]; [|exact Hb].
  rewrite (Hnil prev HQ) in Hb. discriminate.
Qed.

Lemma carries_accept : carries Q u accept.
Proof. intros prev t _ _. reflexivity. Qed.

End Carrying.

Lemma carries_extends (m : cont) :
  (forall u, carries (fun _ _ => True) u m) -> extends m.
Proof. intros H prev t u. apply H. exact I. Qed.

Lemma den_skrev_extends : extends (re_den_skrev accept).
Proof.
  apply carries_extends. intros u. unfold re_den_skrev.
  repeat first [ apply carries_lit | apply carries_star
               | apply carries_accept | solve [auto] ].
Qed.

Lemma den_skrev_consuming : consuming (re_den_skrev accept).
Proof. intros prev. reflexivity. Qed.

Lemma on_wrote_consuming : consuming (re_on_wrote accept).
Proof.
  intros prev. unfold re_on_wrote, r_wordb. simpl. apply andb_false_r.
Qed.

Lemma on_wrote_carries (u : str) : carries ends_nonword u (re_on_wrote accept).
Proof.
  assert (Hstep : forall prev c t,
            ends_nonword prev (c :: t) -> ends_nonword (Some c) t).
  { intros prev c t H. exact H. }
  assert (Hnil : forall prev, ends_nonword prev [] -> isword_opt prev = false).
  { intros prev H. exact H. }
  unfold re_on_wrote.
  repeat first [ apply carries_wordb | apply carries_lit | apply carries_plus
               | apply carries_star | apply carries_opt
               | apply carries_accept | assumption ].
Qed.

(** A match of [\bOn...] starts behind a character that is no word
    character. *)
Lemma on_wrote_boundary (prev : option ascii) (t : str) :
  re_on_wrote accept prev t = true -> isword_opt prev = false.
Proof.
  unfold re_on_wrote, r_wordb. intros H. apply andb_prop in H as [Hb H].
  destruct t as [|c t]; [discriminate|].
  simpl in H. apply andb_prop in H as [Hc _].
  assert (Hw : isword c = true).
  { clear - Hc. revert Hc. each_char c. }
  simpl in Hb. rewrite Hw in Hb. destruct (isword_opt prev); auto.
Qed.

Lemma last_char_skipn :
  forall p prev k, k <= length p ->
    last_char (char_before prev p k) (skipn k p) = last_char prev p.
Proof.
  induction p as [|c p IH]; intros prev [|j] Hk; simpl in Hk; try reflexivity;
    try lia.
  change (last_char prev (c :: p)) with (last_char (Some c) p).
  rewrite <- (IH (Some c) j) by lia. simpl skipn.
  f_equal. destruct j; reflexivity.
Qed.

Lemma on_wrote_cut_clean (s : str) (i : nat) :
  search (re_on_wrote accept) s = Some i ->
  search (re_on_wrote accept) (firstn i s) = None.
Proof.
  intros H. apply search_some in H as [Hi [Hm Hmin]].
  apply on_wrote_boundary in Hm.
  assert (Hlen : length (firstn i s) = i) by (rewrite length_firstn; lia).
  apply search_none_intro. intros k Hk. rewrite Hlen in Hk.
  destruct (matches_at (re_on_wrote accept) (firstn i s) k) eqn:E;
    [|reflexivity].
  assert (k < i \/ k = length (firstn i s)) as [L| ->] by lia.
  - unfold matches_at in E.
    apply (on_wrote_carries (skipn i s)) in E.
    + rewrite <- skipn_app_le, <- (char_before_app _ (skipn i s)) in E
        by lia.
      rewrite firstn_skipn in E. fold (matches_at (re_on_wrote accept) s k) in E.
      rewrite (Hmin k L) in E. discriminate.
    + unfold ends_nonword. rewrite last_char_skipn by lia.
      rewrite <- (last_char_skipn (firstn i s) None (length (firstn i s)))
        by lia.
      rewrite skipn_all. simpl. rewrite Hlen.
      rewrite <- (char_before_app _ (skipn i s)), firstn_skipn by lia.
      exact Hm.
  - rewrite matches_at_end in E; [discriminate|apply on_wrote_consuming].
Qed.

(** ** remove_trailing_text as a chain of cuts *)

Lemma search_from_lower (needle : str) :
  forall s prev prev' i,
    search_from (fun _ t => startswith t needle) prev (lower s) i
    = search_from (m_find needle) prev' s i.
Proof.
  induction s as [|c s IH]; intros prev prev' i; [reflexivity|].
  change (lower (c :: s)) with (lower_char c :: lower s).
  cbn [search_from].
  change (m_find needle prev' (c :: s))
    with (startswith (lower_char c :: lower s) needle).
  destruct (startswith (lower_char c :: lower s) needle); [reflexivity|].
  apply IH.
Qed.

Lemma find_lower (s needle : str) :
  find (lower s) needle =
  match search (m_find needle) s with
  | Some i => Z.of_nat i
  | None => (-1)%Z
  end.
Proof.
  unfold find, search. rewrite (search_from_lower needle s None None 0).
  reflexivity.
Qed.

Lemma found_of_nat (i : nat) : found (Z.of_nat i) = true.
Proof. unfold found. destruct (Z.eqb_spec (Z.of_nat i) (-1)); [lia|reflexivity]. Qed.

Lemma slice_to_of_nat (s : str) (i : nat) : slice_to s (Z.of_nat i) = firstn i s.
Proof.
  unfold slice_to. destruct (Z.ltb_spec (Z.of_nat i) 0); [lia|].
  rewrite Nat2Z.id. reflexivity.
Qed.

Lemma cut_find_eq (needle s : str) :
  (if found (find (lower s) needle)
   then slice_to s (find (lower s) needle) else s)
  = cut (m_find needle) s.
Proof.
  rewrite find_lower. unfold cut. destruct (search (m_find needle) s) as [i|].
  - rewrite found_of_nat. apply slice_to_of_nat.
  - reflexivity.
Qed.

Lemma cut_re_eq (r : regex) (s : str) :
  match re_search r s with
  | Some start => slice_to s (Z.of_nat start)
  | None => s
  end = cut (r accept) s.
Proof.
  unfold re_search, cut. destruct (search (r accept) s); [|reflexivity].
  apply slice_to_of_nat.
Qed.

Lemma replace_star (s : str) : replace s (py "*") [] = without_stars s.
Proof.
  unfold replace.
  set (m := fun t : str =>
              if startswith t (py "*") then Some (length (py "*")) else None).
  induction s as [|c s IH]; [reflexivity|].
  assert (Hm : m (c :: s) = if Ascii.eqb c STAR then Some 1 else None).
  { unfold m. simpl. rewrite startswith_nil, andb_true_r. reflexivity. }
  rewrite re_sub_cons, Hm. unfold without_stars. cbn [filter].
  fold (without_stars s).
  destruct (Ascii.eqb c STAR); simpl; rewrite IH; reflexivity.
Qed.

Lemma remove_trailing_text_cuts (s : str) :
  remove_trailing_text s = without_stars (cuts s).
Proof.
  unfold remove_trailing_text. cbv zeta. rewrite replace_star. f_equal.
  unfold cuts, later_cuts, reply_patterns. cbn [fold_left].
  rewrite !cut_re_eq, !cut_find_eq. do 4 apply f_equal.
  unfold cut_disclaimer. rewrite find_lower.
  destruct (search (m_find (py "the information contained in this")) s)
    as [i|]; [|reflexivity].
  rewrite found_of_nat, slice_to_of_nat. reflexivity.
Qed.

Lemma prefix_trans (a b s u1 u2 : str) :
  s = a ++ u1 -> a = b ++ u2 -> s = b ++ (u2 ++ u1).
Proof. intros -> ->. rewrite app_assoc. reflexivity. Qed.

Lemma cut_disclaimer_prefix (s : str) : exists u, s = cut_disclaimer s ++ u.
Proof.
  unfold cut_disclaimer.
  destruct (search (m_find (py "the information contained in this")) s)
    as [i|].
  - destruct (cut_prefix (m_find (py "please note")) (firstn i s)) as [u Hu].
    exists (u ++ skipn i s).
    eapply prefix_trans; [symmetry; apply firstn_skipn | exact Hu].
  - exists []. symmetry. apply app_nil_r.
Qed.

Lemma cut_disclaimer_clean (s : str) :
  search (m_find (py "the information contained in this")) (cut_disclaimer s)
  = None.
Proof.
  unfold cut_disclaimer.
  destruct (search (m_find (py "the information contained in this")) s)
    as [i|] eqn:E; [|exact E].
  destruct (cut_prefix (m_find (py "please note")) (firstn i s)) as [u Hu].
  apply (search_none_prefix _ _ u); [apply m_find_extends|].
  rewrite <- Hu. apply search_some_prefix; auto using m_find_extends.
  apply m_find_consuming. discriminate.
Qed.

Lemma later_cuts_prefix (s : str) : exists u, s = later_cuts s ++ u.
Proof.
  unfold later_cuts.
  destruct (cut_prefix (m_find (py "sent from my ")) s) as [u1 H1].
  destruct (cut_prefix (m_find (py "sendt fra min "))
              (cut (m_find (py "sent from my ")) s)) as [u2 H2].
  destruct (cut_prefix (re_den_skrev accept)
              (cut (m_find (py "sendt fra min "))
                 (cut (m_find (py "sent from my ")) s))) as [u3 H3].
  destruct (cut_prefix (re_on_wrote accept)
              (cut (re_den_skrev accept)
                 (cut (m_find (py "sendt fra min "))
                    (cut (m_find (py "sent from my ")) s)))) as [u4 H4].
  exists (u4 ++ u3 ++ u2 ++ u1).
  eapply prefix_trans; [|exact H4].
  eapply prefix_trans; [|exact H3].
  eapply prefix_trans; [exact H1|exact H2].
Qed.

Lemma cuts_prefix (s : str) : exists u, s = cuts s ++ u.
Proof.
  unfold cuts. destruct (cut_disclaimer_prefix s) as [u1 H1].
  destruct (later_cuts_prefix (cut_disclaimer s)) as [u2 H2].
  exists (u2 ++ u1). eapply prefix_trans; eauto.
Qed.

(** After the later passes none of their patterns is left. *)
Lemma later_cuts_clean (s : str) :
  search (m_find (py "sent from my ")) (later_cuts s) = None
  /\ search (m_find (py "sendt fra min ")) (later_cuts s) = None
  /\ search (re_den_skrev accept) (later_cuts s) = None
  /\ search (re_on_wrote accept) (later_cuts s) = None.
Proof.
  unfold later_cuts.
  set (s1 := cut (m_find (py "sent from my ")) s).
  set (s2 := cut (m_find (py "sendt fra min ")) s1).
  set (s3 := cut (re_den_skrev accept) s2).
  destruct (cut_prefix (m_find (py "sendt fra min ")) s1) as [u2 H2].
  destruct (cut_prefix (re_den_skrev accept) s2) as [u3 H3].
  destruct (cut_prefix (re_on_wrote accept) s3) as [u4 H4].
  fold s2 in H2, H3. fold s3 in H3, H4.
  assert (C1 : search (m_find (py "sent from my ")) s1 = None).
  { apply cut_is_clean; [apply m_find_extends|].
    apply m_find_consuming. discriminate. }
  assert (C2 : search (m_find (py "sendt fra min ")) s2 = None).
  { apply cut_is_clean; [apply m_find_extends|].
    apply m_find_consuming. discriminate. }
  assert (C3 : search (re_den_skrev accept) s3 = None).
  { apply cut_is_clean; [apply den_skrev_extends|apply den_skrev_consuming]. }
  repeat split.
  - apply (search_none_prefix _ _ (u4 ++ u3 ++ u2)); [apply m_find_extends|].
    rewrite <- (prefix_trans _ _ _ _ _ (prefix_trans _ _ _ _ _ H2 H3) H4).
    exact C1.
  - apply (search_none_prefix _ _ (u4 ++ u3)); [apply m_find_extends|].
    rewrite <- (prefix_trans _ _ _ _ _ H3 H4). exact C2.
  - apply (search_none_prefix _ _ u4); [apply den_skrev_extends|].
    rewrite <- H4. exact C3.
  - unfold cut at 1. destruct (search (re_on_wrote accept) s3) as [i|] eqn:E.
    + apply on_wrote_cut_clean. exact E.
    + exact E.
Qed.

Lemma later_cuts_fixed (s : str) :
  search (m_find (py "sent from my ")) s = None ->
  search (m_find (py "sendt fra min ")) s = None ->
  search (re_den_skrev accept) s = None ->
  search (re_on_wrote accept) s = None ->
  later_cuts s = s.
Proof.
  intros H1 H2 H3 H4. unfold later_cuts.
  rewrite (cut_clean _ s H1), (cut_clean _ s H2), (cut_clean _ s H3).
  apply cut_clean. exact H4.
Qed.

(** The truncation passes, run again on their own result, cut nothing. *)
Lemma cuts_idempotent (s : str) : cuts (cuts s) = cuts s.
Proof.
  assert (HD : search (m_find (py "the information contained in this"))
                 (cuts s) = None).
  { destruct (later_cuts_prefix (cut_disclaimer s)) as [u Hu].
    apply (search_none_prefix _ _ u); [apply m_find_extends|].
    unfold cuts. rewrite <- Hu. apply cut_disclaimer_clean. }
  unfold cuts at 1. unfold cut_disclaimer. rewrite HD.
  destruct (later_cuts_clean (cut_disclaimer s)) as [H1 [H2 [H3 H4]]].
  apply later_cuts_fixed; assumption.
Qed.

Lemma without_stars_id (s : str) : ~ In STAR s -> without_stars s = s.
Proof.
  induction s as [|c s IH]; intros H; [reflexivity|]. simpl.
  destruct (Ascii.eqb c STAR) eqn:E.
  - apply eqb_true in E. subst. exfalso. apply H. left. reflexivity.
  - simpl. f_equal. apply IH. intros Hin. apply H. right. exact Hin.
Qed.

Lemma without_stars_clean (s : str) : ~ In STAR (without_stars s).
Proof.
  unfold without_stars. intros H. apply filter_In in H as [_ H].
  rewrite Ascii.eqb_refl in H. discriminate.
Qed.

Lemma without_stars_length (s : str) : length (without_stars s) <= length s.
Proof. apply filter_length_le. Qed.

(** C10: what [remove_trailing_text] returns is a prefix of the body with
    its asterisks deleted; it is no longer than the body and holds no
    asterisk. *)
Theorem remove_trailing_text_prefix (body : str) :
  (exists p u, body = p ++ u /\ remove_trailing_text body = without_stars p)
  /\ length (remove_trailing_text body) <= length body
  /\ ~ In STAR (remove_trailing_text body).
Proof.
  rewrite remove_trailing_text_cuts.
  destruct (cuts_prefix body) as [u Hu].
  split; [|split].
  - exists (cuts body), u. auto.
  - pose proof (without_stars_length (cuts body)).
    apply (f_equal (@length ascii)) in Hu. rewrite length_app in Hu. lia.
  - apply without_stars_clean.
Qed.

(** C5, as amended: on a body without asterisks, applying
    [remove_trailing_text] to its own result changes nothing. *)
Theorem remove_trailing_text_idempotent (body : str) :
  ~ In STAR body ->
  remove_trailing_text (remove_trailing_text body) = remove_trailing_text body.
Proof.
  intros H. rewrite !remove_trailing_text_cuts.
  assert (Hc : without_stars (cuts body) = cuts body).
  { apply without_stars_id. destruct (cuts_prefix body) as [u Hu].
    intros Hin. apply H. rewrite Hu. apply in_or_app. left. exact Hin. }
  rewrite Hc, cuts_idempotent. exact Hc.
Qed.

(** ** The disclaimer pass *)

Lemma find_some (s needle : str) (i : nat) :
  find (lower s) needle = Z.of_nat i -> search (m_find needle) s = Some i.
Proof.
  rewrite find_lower. destruct (search (m_find needle) s) as [j|]; intros H.
  - f_equal. lia.
  - lia.
Qed.

Lemma find_none (s needle : str) :
  find (lower s) needle = (-1)%Z -> search (m_find needle) s = None.
Proof.
  rewrite find_lower. destruct (search (m_find needle) s) as [j|]; intros H.
  - lia.
  - reflexivity.
Qed.

Lemma startswith_split (t p : str) :
  startswith t p = true -> exists rest, t = p ++ rest.
Proof.
  revert t. induction p as [|a p IH]; intros t H.
  - exists t. reflexivity.
  - destruct t as [|c t]; simpl in H; [discriminate|].
    apply andb_prop in H as [Hc H]. apply eqb_true in Hc. subst c.
    destruct (IH t H) as [rest ->]. exists rest. reflexivity.
Qed.

Lemma startswith_firstn (t p : str) (n : nat) :
  length p <= n -> startswith t p = true -> startswith (firstn n t) p = true.
Proof.
  intros Hn H. destruct (startswith_split t p H) as [rest ->].
  rewrite firstn_app. rewrite firstn_all2 by assumption.
  apply startswith_app. clear. induction p; simpl; auto.
  rewrite Ascii.eqb_refl. auto.
Qed.

Lemma lower_skipn (s : str) (k : nat) : lower (skipn k s) = skipn k (lower s).
Proof. unfold lower. symmetry. apply skipn_map. Qed.

Lemma lower_firstn (s : str) (k : nat) : lower (firstn k s) = firstn k (lower s).
Proof. unfold lower. symmetry. apply firstn_map. Qed.

(** An occurrence of the disclaimer phrase cannot start inside an
    occurrence of "please note". *)
Lemma please_note_apart (t : str) (j : nat) :
  1 <= j <= 10 ->
  startswith t (py "please note") = true ->
  startswith (skipn j t) (py "the information contained in this") = false.
Proof.
  intros Hj H. destruct (startswith_split _ _ H) as [rest ->].
  do 11 (destruct j as [|j]; [try lia; reflexivity|]). lia.
Qed.

Lemma please_note_fits (s : str) (p d : nat) :
  search (m_find (py "the information contained in this")) s = Some d ->
  search (m_find (py "please note")) s = Some p ->
  p < d -> p + 11 <= d.
Proof.
  intros Hd Hp Hlt.
  apply search_some in Hd as [_ [Hd _]].
  apply search_some in Hp as [_ [Hp _]].
  unfold matches_at, m_find in *.
  destruct (Nat.le_gt_cases (p + 11) d) as [L|L]; [exact L|exfalso].
  replace d with ((d - p) + p) in Hd by lia.
  rewrite <- skipn_skipn, lower_skipn in Hd.
  rewrite (please_note_apart _ (d - p)) in Hd; [discriminate|lia|exact Hp].
Qed.

Lemma cut_disclaimer_at_please_note (s : str) (p d : nat) :
  search (m_find (py "the information contained in this")) s = Some d ->
  search (m_find (py "please note")) s = Some p ->
  p < d -> cut_disclaimer s = firstn p s.
Proof.
  intros Hd Hp Hlt. pose proof (please_note_fits s p d Hd Hp Hlt) as Hfit.
  unfold cut_disclaimer. rewrite Hd.
  pose proof (search_some _ _ _ Hd) as [Hdl _].
  pose proof (search_some _ _ _ Hp) as [_ [Hm Hmin]].
  assert (Hlen : length (firstn d s) = d) by (rewrite length_firstn; lia).
  unfold cut. rewrite (search_some_intro _ _ p).
  - rewrite firstn_firstn. f_equal. lia.
  - lia.
  - unfold matches_at, m_find in *.
    rewrite skipn_firstn_comm, lower_firstn.
    apply startswith_firstn; [simpl; lia|]. exact Hm.
  - intros k Hk. destruct (matches_at (m_find (py "please note"))
                             (firstn d s) k) eqn:E; [|reflexivity].
    apply (matches_at_app _ _ (skipn d s) k (m_find_extends _)) in E; [|lia].
    rewrite firstn_skipn, (Hmin k Hk) in E. discriminate.
Qed.

Lemma cut_disclaimer_none (s : str) :
  search (m_find (py "the information contained in this")) s = None ->
  cut_disclaimer s = s.
Proof. unfold cut_disclaimer. intros ->. reflexivity. Qed.

(** C6, as amended: for a body of code points 0..255, when "please note"
    first occurs in front of the first occurrence of the disclaimer phrase,
    the disclaimer pass cuts at that "please note".  What is returned is what the later passes and the
    deletion of asterisks leave of the text in front of it: a prefix of that
    text without its asterisks, and the whole of it when none of the later
    patterns occurs in it. *)
Theorem disclaimer_cut_at_please_note (body : str) (d p : nat) :
  find (lower body) (py "the information contained in this") = Z.of_nat d ->
  find (lower body) (py "please note") = Z.of_nat p ->
  p < d ->
  let before := slice_to body (Z.of_nat p) in
  remove_trailing_text body = remove_trailing_text before
  /\ (exists q u, before = q ++ u /\ remove_trailing_text body = without_stars q)
  /\ (find (lower before) (py "sent from my ") = (-1)%Z ->
      find (lower before) (py "sendt fra min ") = (-1)%Z ->
      re_search re_den_skrev before = None ->
      re_search re_on_wrote before = None ->
      remove_trailing_text body = without_stars before).
Proof.
  intros Hd Hp Hlt before. apply find_some in Hd, Hp.
  assert (Hb : before = firstn p body) by apply slice_to_of_nat.
  assert (Hcut : cut_disclaimer body = before).
  { rewrite Hb. eapply cut_disclaimer_at_please_note; eauto. }
  assert (Hclean : cut_disclaimer before = before).
  { apply cut_disclaimer_none.
    apply (search_none_prefix _ _ (skipn p (firstn d body)));
      [apply m_find_extends|].
    rewrite Hb. replace (firstn p body) with (firstn p (firstn d body)).
    - rewrite firstn_skipn. apply search_some_prefix; auto using m_find_extends.
      apply m_find_consuming. discriminate.
    - rewrite firstn_firstn. f_equal. lia. }
  rewrite !remove_trailing_text_cuts. unfold cuts. rewrite Hcut, Hclean.
  split; [reflexivity|split].
  - destruct (later_cuts_prefix before) as [u Hu].
    exists (later_cuts before), u. auto.
  - intros H1 H2 H3 H4. f_equal.
    apply later_cuts_fixed; auto using find_none.
Qed.

(** ** One line of the scan *)

Lemma truthy_false (s : str) : truthy s = false -> s = [].
Proof. destruct s; [reflexivity|discriminate]. Qed.

Lemma truthy_true (s : str) : truthy s = true -> s <> [].
Proof. destruct s; [discriminate|]. intros _. discriminate. Qed.

Lemma truthy_app (a b : str) : truthy a = true -> truthy (a ++ b) = true.
Proof. destruct a; [discriminate|reflexivity]. Qed.

(** A line starts with at most one of the header keywords. *)
Lemma keyword_cases (l : str) :
  let f := startswith l (py "from:") in
  let t := startswith l (py "to:") in
  let s := startswith l (py "sent:") in
  let d := startswith l (py "date:") in
  let j := startswith l (py "subject:") in
  (f = true /\ t = false /\ s = false /\ d = false /\ j = false)
  \/ (f = false /\ t = true /\ s = false /\ d = false /\ j = false)
  \/ (f = false /\ t = false /\ s = true /\ d = false /\ j = false)
  \/ (f = false /\ t = false /\ s = false /\ d = true /\ j = false)
  \/ (f = false /\ t = false /\ s = false /\ d = false /\ j = true)
  \/ (f = false /\ t = false /\ s = false /\ d = false /\ j = false).
Proof.
  cbv zeta.
  destruct (startswith l (py "from:")) eqn:E1.
  { destruct (startswith_split _ _ E1) as [r ->]. left. repeat split. }
  destruct (startswith l (py "to:")) eqn:E2.
  { destruct (startswith_split _ _ E2) as [r ->]. right. left. repeat split. }
  destruct (startswith l (py "sent:")) eqn:E3.
  { destruct (startswith_split _ _ E3) as [r ->].
    right. right. left. repeat split. }
  destruct (startswith l (py "date:")) eqn:E4.
  { destruct (startswith_split _ _ E4) as [r ->].
    right. right. right. left. repeat split. }
  destruct (startswith l (py "subject:")) eqn:E5.
  { right. right. right. right. left. repeat split. }
  right. right. right. right. right. repeat split.
Qed.

Lemma header_eqb_eq (a b : header) : header_eqb a b = true -> a = b.
Proof. destruct a, b; simpl; intros H; try discriminate; reflexivity. Qed.

Section ScanProperties.

Variable parse : str -> result datetime.


(** The loop body, with the conditions of its last three branches named. *)
Lemma step_unfold (h : headers) (raw : str) :
  step parse h raw =
  let line := strip raw in
  if negb (truthy line) then Continue h
  else if startswith (lower line) (py "from:") && negb (truthy (From h)) then
    Continue
      (set_From h (clean_text (strip_chars (strip (slice_from line 5)) [QUOTE])))
  else if startswith (lower line) (py "to:") && negb (truthy (To h)) then
    Continue
      (set_To h (clean_text (strip_chars (strip (slice_from line 3)) [QUOTE])))
  else if (startswith (lower line) (py "sent:")
           || startswith (lower line) (py "date:"))
          && negb (truthy (Sent h)) then
    let raw_date :=
      clean_text
        (strip_chars (strip (nth 1 (split_once line ":"%char) [])) [QUOTE]) in
    Continue
      (set_Sent h (or_else (normalize_date parse raw_date) raw_date))
  else if startswith (lower line) (py "subject:")
          && negb (truthy (Subject h)) then
    Continue
      (set_Subject h
         (clean_text
            (strip_chars (strip (nth 1 (split_once line ":"%char) []))
                         [QUOTE])))
  else if princess_rule h raw then Break
  else if epstein_rule h raw then Break
  else if filled h then Continue (set_Content h (Content h ++ piece raw))
  else Continue h.
Proof. reflexivity. Qed.

(** What the loop body does, by cases: it fills an empty field from the
    line, or stops, or appends the line to the content, or passes on. *)
Lemma step_spec (h : headers) (raw : str) :
  match step parse h raw with
  | Break =>
      captured parse h raw = false
      /\ (princess_rule h raw || epstein_rule h raw) = true
  | Continue h' =>
      (exists k v, offer parse k raw = Some v /\ truthy (field k h) = false
                   /\ h' = set_field k h v)
      \/ (captured parse h raw = false
          /\ (princess_rule h raw || epstein_rule h raw) = false
          /\ filled h = true
          /\ h' = set_Content h (Content h ++ piece raw))
      \/ (captured parse h raw = false
          /\ (princess_rule h raw || epstein_rule h raw) = false
          /\ h' = h
          /\ (filled h = false \/ strip raw = []))
  end.
Proof.
  rewrite step_unfold. cbv zeta.
  destruct (truthy (strip raw)) eqn:Hne; cbn [negb].
  2: { right. right. apply truthy_false in Hne.
       unfold captured, offers, offer, princess_rule, epstein_rule.
       rewrite Hne. rewrite !andb_false_r. repeat split. right. reflexivity. }
  assert (Hcap :
    captured parse h raw =
    (startswith (lower (strip raw)) (py "from:") && negb (truthy (From h)))
    || ((startswith (lower (strip raw)) (py "to:") && negb (truthy (To h)))
        || (((startswith (lower (strip raw)) (py "sent:")
              || startswith (lower (strip raw)) (py "date:"))
             && negb (truthy (Sent h)))
            || (startswith (lower (strip raw)) (py "subject:")
                && negb (truthy (Subject h)))))).
  { unfold captured, offers, offer. cbv zeta.
    cbn [existsb field].
    destruct (startswith (lower (strip raw)) (py "from:"));
      destruct (startswith (lower (strip raw)) (py "to:"));
      destruct (startswith (lower (strip raw)) (py "sent:"));
      destruct (startswith (lower (strip raw)) (py "date:"));
      destruct (startswith (lower (strip raw)) (py "subject:"));
      cbn [orb andb]; rewrite ?orb_false_r; reflexivity. }
  assert (HF : offer parse HFrom raw =
    if startswith (lower (strip raw)) (py "from:")
    then Some (clean_text
                 (strip_chars (strip (slice_from (strip raw) 5)) [QUOTE]))
    else None) by reflexivity.
  assert (HT : offer parse HTo raw =
    if startswith (lower (strip raw)) (py "to:")
    then Some (clean_text
                 (strip_chars (strip (slice_from (strip raw) 3)) [QUOTE]))
    else None) by reflexivity.
  assert (HS : offer parse HSent raw =
    if startswith (lower (strip raw)) (py "sent:")
       || startswith (lower (strip raw)) (py "date:")
    then Some (or_else
                 (normalize_date parse
                    (clean_text
                       (strip_chars
                          (strip (nth 1 (split_once (strip raw) ":"%char) []))
                          [QUOTE])))
                 (clean_text
                    (strip_chars
                       (strip (nth 1 (split_once (strip raw) ":"%char) []))
                       [QUOTE])))
    else None) by reflexivity.
  assert (HJ : offer parse HSubject raw =
    if startswith (lower (strip raw)) (py "subject:")
    then Some (clean_text
                 (strip_chars
                    (strip (nth 1 (split_once (strip raw) ":"%char) []))
                    [QUOTE]))
    else None) by reflexivity.
  rewrite Hcap. clear Hcap.
  pose proof (keyword_cases (lower (strip raw))) as K. cbv zeta in K.
  destruct K as [K|[K|[K|[K|[K|K]]]]];
    destruct K as (E1 & E2 & E3 & E4 & E5);
    rewrite E1, E2, E3, E4, E5 in *; cbn [orb andb];
    destruct (truthy (From h)) eqn:T1; destruct (truthy (To h)) eqn:T2;
    destruct (truthy (Sent h)) eqn:T3; destruct (truthy (Subject h)) eqn:T4;
    cbn [orb andb negb];
    try (left; exists HFrom; eexists; repeat split; [exact HF|exact T1]);
    try (left; exists HTo; eexists; repeat split; [exact HT|exact T2]);
    try (left; exists HSent; eexists; repeat split; [exact HS|exact T3]);
    try (left; exists HSubject; eexists; repeat split; [exact HJ|exact T4]);
    destruct (princess_rule h raw) eqn:R1;
    destruct (epstein_rule h raw) eqn:R2; cbn [orb];
    try (split; reflexivity);
    unfold filled; rewrite T1, T2, T3; cbn [andb];
    try (right; left; repeat split; reflexivity);
    try (right; right; repeat split; left; reflexivity).
Qed.

Lemma offer_exclusive (k k' : header) (raw v v' : str) :
  offer parse k raw = Some v -> offer parse k' raw = Some v' -> k = k'.
Proof.
  pose proof (keyword_cases (lower (strip raw))) as K. cbv zeta in K.
  unfold offer. cbv zeta.
  destruct K as [K|[K|[K|[K|[K|K]]]]];
    destruct K as (E1 & E2 & E3 & E4 & E5);
    destruct k, k'; rewrite ?E1, ?E2, ?E3, ?E4, ?E5; cbn [orb];
    intros H1 H2; try discriminate; reflexivity.
Qed.

Lemma captured_false (h : headers) (raw : str) (k : header) :
  captured parse h raw = false -> truthy (field k h) = false ->
  offer parse k raw = None.
Proof.
  unfold captured. cbn [existsb]. intros H T.
  apply orb_false_elim in H as [H1 H]. apply orb_false_elim in H as [H2 H].
  apply orb_false_elim in H as [H3 H]. apply orb_false_elim in H as [H4 _].
  unfold offers in *. destruct k; cbn [field] in *.
  - rewrite T in H1. destruct (offer parse HFrom raw); [discriminate|auto].
  - rewrite T in H2. destruct (offer parse HTo raw); [discriminate|auto].
  - rewrite T in H3. destruct (offer parse HSent raw); [discriminate|auto].
  - rewrite T in H4. destruct (offer parse HSubject raw); [discriminate|auto].
Qed.

Lemma captured_true (h : headers) (raw : str) (k : header) (v : str) :
  offer parse k raw = Some v -> truthy (field k h) = false ->
  captured parse h raw = true.
Proof.
  unfold captured, offers. cbn [existsb]. intros E T.
  destruct k; rewrite E, T; cbn; rewrite ?orb_true_r; reflexivity.
Qed.

Lemma field_set_field (k k' : header) (h : headers) (v : str) :
  field k (set_field k' h v) = if header_eqb k k' then v else field k h.
Proof. destruct k, k'; reflexivity. Qed.

(** A field that is filled stays as it is; an empty one takes what the
    line offers for it. *)
Lemma step_field (h h' : headers) (raw : str) (k : header) :
  step parse h raw = Continue h' ->
  field k h' =
  if truthy (field k h) then field k h
  else match offer parse k raw with Some v => v | None => [] end.
Proof.
  intros H. pose proof (step_spec h raw) as S. rewrite H in S.
  destruct S as [(k0 & v0 & Ho & Ht & ->)|[(Hc & _ & _ & ->)|(Hc & _ & -> & _)]].
  - rewrite field_set_field. destruct (header_eqb k k0) eqn:E.
    + apply header_eqb_eq in E. subst k0. rewrite Ht, Ho. reflexivity.
    + destruct (truthy (field k h)) eqn:T; [reflexivity|].
      destruct (offer parse k raw) as [v|] eqn:Ek.
      * rewrite (offer_exclusive _ _ _ _ _ Ek Ho) in E.
        destruct k0; discriminate.
      * apply truthy_false. exact T.
  - replace (field k (set_Content h (Content h ++ piece raw)))
      with (field k h) by (destruct k; reflexivity).
    destruct (truthy (field k h)) eqn:T; [reflexivity|].
    rewrite (captured_false h raw k Hc T). apply truthy_false. exact T.
  - destruct (truthy (field k h)) eqn:T; [reflexivity|].
    rewrite (captured_false h raw k Hc T). apply truthy_false. exact T.
Qed.

Lemma step_content (h h' : headers) (raw : str) :
  step parse h raw = Continue h' ->
  Content h' = Content h
  \/ (filled h = true /\ Content h' = Content h ++ piece raw).
Proof.
  intros H. pose proof (step_spec h raw) as S. rewrite H in S.
  destruct S as [(k0 & v0 & _ & _ & ->)|[(_ & _ & Hf & ->)|(_ & _ & -> & _)]].
  - left. destruct k0; reflexivity.
  - right. split; [exact Hf|reflexivity].
  - left. reflexivity.
Qed.

Lemma step_captures (h : headers) (raw : str) (k : header) (v : str) :
  offer parse k raw = Some v -> truthy (field k h) = false ->
  exists h', step parse h raw = Continue h'.
Proof.
  intros Ho Ht. pose proof (step_spec h raw) as S.
  destruct (step parse h raw) as [h'|]; [eauto|].
  destruct S as [Hc _]. rewrite (captured_true h raw k v Ho Ht) in Hc.
  discriminate.
Qed.

(** The scan stops at a line exactly when the line is not taken as a
    header value and one of the two sender rules holds of it. *)
Lemma step_break_iff (h : headers) (raw : str) :
  step parse h raw = Break <->
  captured parse h raw = false
  /\ (princess_rule h raw || epstein_rule h raw) = true.
Proof.
  pose proof (step_spec h raw) as S. split.
  - intros H. rewrite H in S. exact S.
  - intros [Hc Hr]. destruct (step parse h raw) as [h'|]; [|reflexivity].
    destruct S as [(k0 & v0 & Ho & Ht & _)|[(_ & Hn & _)|(_ & Hn & _)]].
    + rewrite (captured_true h raw k0 v0 Ho Ht) in Hc. discriminate.
    + rewrite Hr in Hn. discriminate.
    + rewrite Hr in Hn. discriminate.
Qed.

Lemma step_keeps (h h' : headers) (raw : str) (k : header) :
  step parse h raw = Continue h' -> truthy (field k h) = true ->
  field k h' = field k h.
Proof. intros H T. rewrite (step_field h h' raw k H), T. reflexivity. Qed.

Lemma filled_fields (h : headers) :
  filled h = true <->
  truthy (field HFrom h) = true /\ truthy (field HTo h) = true
  /\ truthy (field HSent h) = true.
Proof.
  unfold filled. simpl. rewrite !andb_true_iff. tauto.
Qed.

Lemma step_filled (h h' : headers) (raw : str) :
  step parse h raw = Continue h' -> filled h = true -> filled h' = true.
Proof.
  intros H F. apply filled_fields in F as (F1 & F2 & F3). apply filled_fields.
  rewrite (step_keeps h h' raw HFrom H F1), (step_keeps h h' raw HTo H F2),
    (step_keeps h h' raw HSent H F3). auto.
Qed.

(** ** The whole scan *)

Lemma scan_app_runs (pre rest : list str) :
  forall h h', runs parse h pre = Some h' ->
    scan parse h (pre ++ rest) = scan parse h' rest.
Proof.
  induction pre as [|l pre IH]; intros h h' H; simpl in *.
  - injection H as ->. reflexivity.
  - destruct (step parse h l) as [h1|]; [|discriminate]. apply IH. exact H.
Qed.

Lemma scan_keeps (k : header) (lines : list str) :
  forall h, truthy (field k h) = true ->
    field k (scan parse h lines) = field k h.
Proof.
  induction lines as [|l lines IH]; intros h T; simpl; [reflexivity|].
  destruct (step parse h l) as [h1|] eqn:E; [|reflexivity].
  pose proof (step_keeps h h1 l k E T) as K.
  rewrite IH by (rewrite K; exact T). exact K.
Qed.

Lemma scan_filled (lines : list str) (h : headers) :
  filled h = true -> filled (scan parse h lines) = true.
Proof.
  intros F. apply filled_fields in F as (F1 & F2 & F3). apply filled_fields.
  rewrite !scan_keeps by assumption. auto.
Qed.

Lemma runs_stays_empty (k : header) (pre : list str) :
  forall h h', runs parse h pre = Some h' -> field k h = [] ->
    (forall l, In l pre -> offers_value parse k l = false) ->
    field k h' = [].
Proof.
  induction pre as [|l pre IH]; intros h h' H E Hn; simpl in H.
  - injection H as <-. exact E.
  - destruct (step parse h l) as [h1|] eqn:S; [|discriminate].
    apply (IH h1 h' H).
    + rewrite (step_field h h1 l k S), E. simpl.
      specialize (Hn l (or_introl eq_refl)). unfold offers_value in Hn.
      destruct (offer parse k l) as [v|]; [|reflexivity].
      apply truthy_false. exact Hn.
    + intros l' Hin. apply Hn. right. exact Hin.
Qed.

(** The content grows by pieces of lines of the scan only, in their order. *)
Lemma scan_content (lines : list str) :
  forall h, exists body,
    sublist body lines
    /\ Content (scan parse h lines) = Content h ++ concat (map piece body).
Proof.
  induction lines as [|l lines IH]; intros h; simpl.
  - exists []. split; [constructor|]. simpl. symmetry. apply app_nil_r.
  - destruct (step parse h l) as [h1|] eqn:S.
    + destruct (IH h1) as [body [Hs Hc]].
      destruct (step_content h h1 l S) as [E|[_ E]]; rewrite Hc, E.
      * exists body. split; [constructor; exact Hs|reflexivity].
      * exists (l :: body). split; [constructor; exact Hs|].
        cbn [map concat]. rewrite <- app_assoc. reflexivity.
    + exists []. split.
      * clear. constructor. induction lines; constructor; auto.
      * simpl. symmetry. apply app_nil_r.
Qed.

Lemma parse_first_email_result (text : str) :
  parse_first_email parse text
  = result_of (scan parse init_headers (splitlines text)).
Proof.
  unfold parse_first_email, result_of, filled. cbv zeta.
  destruct (truthy (From _)), (truthy (To _)), (truthy (Sent _)); reflexivity.
Qed.

(** C1: [parse_first_email] returns [None] exactly when From, To or Sent is
    still empty at the end of the scan; it does so for the empty text; and
    the three are non-empty in every record it returns. *)
Theorem parse_first_email_none_iff (text : str) :
  (parse_first_email parse text = None <->
   From (scan parse init_headers (splitlines text)) = []
   \/ To (scan parse init_headers (splitlines text)) = []
   \/ Sent (scan parse init_headers (splitlines text)) = [])
  /\ parse_first_email parse [] = None
  /\ (forall r, parse_first_email parse text = Some r ->
        From r <> [] /\ To r <> [] /\ Sent r <> []).
Proof.
  unfold parse_first_email. cbv zeta.
  set (h := scan parse init_headers (splitlines text)).
  split; [|split; [reflexivity|]].
  - destruct (From h), (To h), (Sent h); simpl; split; intros H;
      try reflexivity; try discriminate; auto;
      destruct H as [H|[H|H]]; discriminate.
  - intros r. destruct (From h) eqn:E1, (To h) eqn:E2, (Sent h) eqn:E3;
      simpl; intros H; try discriminate.
    injection H as <-. rewrite E1, E2, E3. repeat split; discriminate.
Qed.

(** C3, as amended: the first line that offers a non-empty value for a
    header, once the scan reaches it, decides that header: whatever lines
    follow, the scan ends with that value, and so does every record
    [parse_first_email] returns. *)
Theorem first_value_wins (k : header) (text : str) (pre post : list str)
    (l v : str) :
  splitlines text = pre ++ l :: post ->
  (forall l', In l' pre -> offers_value parse k l' = false) ->
  offer parse k l = Some v ->
  v <> [] ->
  runs parse init_headers pre <> None ->
  field k (scan parse init_headers (splitlines text)) = v
  /\ (forall r, parse_first_email parse text = Some r -> field k r = v).
Proof.
  intros Hl Hpre Ho Hv Hr.
  destruct (runs parse init_headers pre) as [hp|] eqn:R;
    [clear Hr|elim Hr; reflexivity].
  assert (E : field k hp = []).
  { apply (runs_stays_empty k pre init_headers hp R); [|exact Hpre].
    destruct k; reflexivity. }
  assert (T : truthy (field k hp) = false) by (rewrite E; reflexivity).
  destruct (step_captures hp l k v Ho T) as [h1 S].
  assert (F : field k h1 = v).
  { rewrite (step_field hp h1 l k S), T, Ho. reflexivity. }
  assert (G : field k (scan parse init_headers (splitlines text)) = v).
  { rewrite Hl, (scan_app_runs pre (l :: post) _ _ R). simpl. rewrite S.
    rewrite scan_keeps; [exact F|]. rewrite F.
    destruct v; [elim Hv|]; reflexivity. }
  split; [exact G|].
  intros r. rewrite parse_first_email_result. unfold result_of.
  destruct (filled _); [|discriminate]. intros H. injection H as <-. exact G.
Qed.

(** C4, as amended: the two sender rules are tried on every non-blank line
    that is not taken as a header value, against the From value filled so
    far.  At the first such line of which one of them holds the scan stops:
    the fields are those the earlier lines left, so neither that line nor a
    later one adds to the content. *)
Theorem early_termination (text : str) (pre post : list str) (l : str)
    (h : headers) :
  splitlines text = pre ++ l :: post ->
  runs parse init_headers pre = Some h ->
  captured parse h l = false ->
  (princess_rule h l || epstein_rule h l) = true ->
  scan parse init_headers (splitlines text) = h
  /\ parse_first_email parse text = result_of h.
Proof.
  intros Hl R Hc Hr.
  assert (S : step parse h l = Break) by (apply step_break_iff; auto).
  assert (G : scan parse init_headers (splitlines text) = h).
  { rewrite Hl, (scan_app_runs pre (l :: post) _ _ R). simpl. rewrite S.
    reflexivity. }
  split; [exact G|]. rewrite parse_first_email_result, G. reflexivity.
Qed.

Lemma step_content_unfilled (h h' : headers) (raw : str) :
  step parse h raw = Continue h' -> filled h = false -> Content h' = Content h.
Proof.
  intros S F. destruct (step_content h h' raw S) as [E|[F' _]]; [exact E|].
  congruence.
Qed.

Lemma step_need (h h' : headers) (l : str) (rest : list str) (k : header) :
  step parse h l = Continue h' ->
  truthy (field k h) = true
  \/ existsb (offers_value parse k) (l :: rest) = true ->
  truthy (field k h') = true \/ existsb (offers_value parse k) rest = true.
Proof.
  intros S H. rewrite (step_field h h' l k S).
  destruct (truthy (field k h)) eqn:T; [left; exact T|].
  destruct H as [H|H]; [discriminate|]. cbn [existsb] in H.
  unfold offers_value in H at 1.
  destruct (offer parse k l) as [v|]; [|right; exact H].
  destruct (truthy v); [left; reflexivity|right; exact H].
Qed.

(** When each mandatory field is filled or has a line to fill it, and no
    line stops the scan before, some line fills the last of them. *)
Lemma scan_fills (lines : list str) :
  forall h,
    filled h = false ->
    (forall k, k <> HSubject ->
       truthy (field k h) = true
       \/ existsb (offers_value parse k) lines = true) ->
    stops_unfilled parse h lines = false ->
    exists pre l post h1 h2,
      lines = pre ++ l :: post
      /\ runs parse h pre = Some h1 /\ filled h1 = false
      /\ step parse h1 l = Continue h2 /\ filled h2 = true
      /\ Content h2 = Content h.
Proof.
  induction lines as [|l rest IH]; intros h F N St.
  - exfalso. assert (filled h = true); [|congruence].
    apply filled_fields.
    repeat split;
      match goal with
      | |- truthy (field ?k h) = true =>
          destruct (N k ltac:(discriminate)) as [T|T];
          [exact T|discriminate]
      end.
  - simpl in St. destruct (step parse h l) as [h'|] eqn:S.
    + pose proof (step_content_unfilled h h' l S F) as C.
      destruct (filled h') eqn:F'.
      * exists [], l, rest, h, h'. repeat split; auto.
      * destruct (IH h' F') as (pre & l' & post & h1 & h2 & E & R & F1 & S2 & F2 & C2).
        { intros k Hk. apply (step_need h h' l rest k S). apply N. exact Hk. }
        { exact St. }
        exists (l :: pre), l', post, h1, h2. repeat split; auto.
        -- rewrite E. reflexivity.
        -- simpl. rewrite S. exact R.
        -- congruence.
    + rewrite F in St. discriminate.
Qed.

(** C2, as amended: when From, To and Sent each have a line that offers a
    non-empty value and no line stops the scan before the three are filled,
    [parse_first_email] returns a record, and its content is made of lines
    that come after the line on which the last of the three was filled. *)
Theorem content_after_headers (text : str) :
  existsb (offers_value parse HFrom) (splitlines text) = true ->
  existsb (offers_value parse HTo) (splitlines text) = true ->
  existsb (offers_value parse HSent) (splitlines text) = true ->
  stops_unfilled parse init_headers (splitlines text) = false ->
  exists r pre l post h body,
    parse_first_email parse text = Some r
    /\ splitlines text = pre ++ l :: post
    /\ runs parse init_headers pre = Some h /\ filled h = false
    /\ (exists h', step parse h l = Continue h' /\ filled h' = true)
    /\ sublist body post
    /\ Content r = concat (map piece body).
Proof.
  intros H1 H2 H3 St.
  destruct (scan_fills (splitlines text) init_headers eq_refl)
    as (pre & l & post & h1 & h2 & E & R & F1 & S & F2 & C); [|exact St|].
  { intros k Hk. right. destruct k; auto; congruence. }
  destruct (scan_content post h2) as [body [Hs Hc]].
  exists (scan parse h2 post), pre, l, post, h1, body.
  assert (G : scan parse init_headers (splitlines text) = scan parse h2 post).
  { rewrite E, (scan_app_runs pre (l :: post) _ _ R). simpl. rewrite S.
    reflexivity. }
  repeat split; auto.
  - rewrite parse_first_email_result, G. unfold result_of.
    rewrite (scan_filled post h2 F2). reflexivity.
  - exists h2. auto.
  - rewrite Hc, C. reflexivity.
Qed.

End ScanProperties.

(** ** The header value behind the colon *)

Lemma lower_char_colon (c : ascii) : lower_char c = ":"%char -> c = ":"%char.
Proof. each_char c. Qed.

Lemma startswith_lower_in (c : ascii) (kw : str) :
  (forall x, lower_char x = c -> x = c) ->
  In c kw ->
  forall line, startswith (lower line) kw = true -> In c line.
Proof.
  intros Hc. induction kw as [|a kw IH]; intros Hin line H; [contradiction|].
  destruct line as [|x line]; [discriminate|].
  simpl in H. apply andb_prop in H as [Hx H]. apply eqb_true in Hx.
  destruct Hin as [->|Hin].
  - left. apply Hc. exact Hx.
  - right. apply IH; assumption.
Qed.

Lemma split_once_go_in (sep : ascii) (s : str) :
  In sep s -> forall cur, exists a b, split_once_go sep cur s = [a; b].
Proof.
  induction s as [|c s IH]; intros Hin cur; [contradiction|]. simpl.
  destruct (Ascii.eqb c sep) eqn:E; [eauto|].
  destruct Hin as [->|Hin]; [rewrite Ascii.eqb_refl in E; discriminate|].
  apply IH. exact Hin.
Qed.

(** Behind the guards of [step], [line.split(":", 1)] has a second part. *)
Lemma split_once_second (line : str) :
  startswith (lower line) (py "sent:") = true
  \/ startswith (lower line) (py "date:") = true
  \/ startswith (lower line) (py "subject:") = true ->
  exists a b, split_once line ":"%char = [a; b].
Proof.
  intros H. apply split_once_go_in.
  destruct H as [H|[H|H]];
    eapply (startswith_lower_in _ _ lower_char_colon); try exact H;
    simpl; tauto.
Qed.

(** ** normalize_date *)

Lemma isoformat_utc (dt : datetime) :
  tzinfo dt = Some utc -> exists body, isoformat dt = body ++ py "+00:00".
Proof.
  intros H. unfold isoformat. rewrite H.
  destruct (ord2ymd _) as [[y m] d]. cbv zeta.
  change (format_offset (Some utc)) with (py "+00:00").
  eexists. rewrite !app_assoc. reflexivity.
Qed.

Lemma astimezone_utc (dt : datetime) (off : Z) :
  astimezone dt off utc =
  if in_years (wall dt - off * 1000000)
  then Ok {| wall := wall dt - off * 1000000; tzinfo := Some utc |}
  else Raise OverflowError.
Proof.
  unfold astimezone, shift, in_years, bind, utc.
  replace (wall dt + - off * 1000000)%Z with (wall dt - off * 1000000)%Z by lia.
  destruct ((0 <=? wall dt - off * 1000000)%Z
            && (wall dt - off * 1000000 <=? MAX_WALL)%Z) eqn:E;
    [|reflexivity].
  replace (wall dt - off * 1000000 + 0 * 1000000)%Z
    with (wall dt - off * 1000000)%Z by lia.
  rewrite E. reflexivity.
Qed.

(** C7, as amended: [normalize_date] turns every exception of the parser
    into [None], and the caller's [or] then keeps the raw string.  A parsed
    value without a timezone is returned with its reading as it is, marked
    as UTC; a parsed value with a timezone is returned as the same instant
    in UTC, unless that reading falls outside the years 1 to 9999, where the
    conversion overflows and [None] is returned as well.  Every string it
    returns ends in the offset [+00:00]. *)
Theorem normalize_date_cases (parse : str -> result datetime) (date_str : str) :
  (forall e, parse date_str = Raise e ->
     normalize_date parse date_str = None)
  /\ (forall dt, parse date_str = Ok dt -> tzinfo dt = None ->
        normalize_date parse date_str
        = Some (isoformat {| wall := wall dt; tzinfo := Some utc |}))
  /\ (forall dt off, parse date_str = Ok dt -> tzinfo dt = Some off ->
        in_years (wall dt - off * 1000000) = true ->
        exists dt', normalize_date parse date_str = Some (isoformat dt')
                    /\ tzinfo dt' = Some utc /\ instant dt' = instant dt)
  /\ (forall dt off, parse date_str = Ok dt -> tzinfo dt = Some off ->
        in_years (wall dt - off * 1000000) = false ->
        normalize_date parse date_str = None)
  /\ (forall iso, normalize_date parse date_str = Some iso ->
        exists body, iso = body ++ py "+00:00")
  /\ (normalize_date parse date_str = None ->
        or_else (normalize_date parse date_str) date_str = date_str).
Proof.
  unfold normalize_date.
  split; [|split; [|split; [|split; [|split]]]].
  - intros e ->. reflexivity.
  - intros dt -> T. simpl. rewrite T. reflexivity.
  - intros dt off -> T Y. simpl. rewrite T, astimezone_utc, Y. simpl.
    eexists. split; [reflexivity|]. split; [reflexivity|].
    unfold instant. rewrite T. cbn [wall tzinfo]. unfold utc. lia.
  - intros dt off -> T Y. simpl. rewrite T, astimezone_utc, Y. reflexivity.
  - intros iso. destruct (parse date_str) as [dt|e]; simpl; [|discriminate].
    destruct (tzinfo dt) as [off|] eqn:T.
    + rewrite astimezone_utc.
      destruct (in_years _); simpl; [|discriminate].
      intros H. injection H as <-. apply isoformat_utc. reflexivity.
    + simpl. intros H. injection H as <-. apply isoformat_utc. reflexivity.
  - intros ->. reflexivity.
Qed.

(** ** The script *)

(** C8: a run over no documents writes the header row of the table and then
    stops with a [NameError], since [sorted_emails] is assigned in the loop
    only; the summary is never written. *)
Theorem main_no_documents (parse : str -> result datetime) (CSV_FILE : str) :
  main parse CSV_FILE [] =
  {| csv_file := Some [fieldnames]; stats_file := None; stdout := [];
     raised := Some NameError |}.
Proof. reflexivity. Qed.

(** The same happens whenever no document of the run yields a record. *)
Lemma main_all_failed (parse : str -> result datetime) (CSV_FILE : str)
    (docs : list document) :
  (forall d, In d docs ->
     parse_first_email parse
       (join [LF]
          (map (fun page => match page with Some t => t | None => [] end)
               (firstn 2 (pages d)))) = None) ->
  raised (main parse CSV_FILE docs) = Some NameError
  /\ stats_file (main parse CSV_FILE docs) = None.
Proof.
  intros H. unfold main.
  assert (G : forall g, sorted_emails g = None ->
            sorted_emails (fold_left (process parse) docs g) = None).
  { induction docs as [|d docs IH]; intros g Hg; [exact Hg|]. simpl.
    apply IH.
    - intros d' Hin. apply H. right. exact Hin.
    - unfold process. rewrite (H d (or_introl eq_refl)). exact Hg. }
  rewrite (G init_globals eq_refl). split; reflexivity.
Qed.

(** * Examples *)

(** The scenario of the specification: headers in order, one body line and
    a mobile signature. *)
Example scenario_alice :
  let text :=
    text_of [py "From: Alice"; py "To: Bob"; py "Sent: Jan 5 2024 10:00";
             py "Subject: Hi"; py "Hello there"; py "Sent from my iPhone"] in
  exists r,
    parse_first_email example_parser text = Some r
    /\ From r = py "Alice" /\ To r = py "Bob"
    /\ Sent r = py "2024-01-05T10:00:00+00:00" /\ Subject r = py "Hi"
    /\ remove_trailing_text (Content r)
       = py " " ++ [LF] ++ py "Hello there " ++ [LF].
Proof. eexists. repeat split; vm_compute; reflexivity. Qed.

(** A date with an offset is shifted to UTC. *)
Example scenario_offset :
  normalize_date example_parser (py "Mon, 3 Mar 2014 10:15:00 +0100")
  = Some (py "2014-03-03T09:15:00+00:00").
Proof. vm_compute. reflexivity. Qed.

(** The header lines may come in any order. *)
Example scenario_any_order :
  option_map (fun r => (From r, To r, Sent r))
    (parse_first_email example_parser
       (text_of [py "Date: Mon, 3 Mar 2014 10:15:00 +0100"; py "TO: Bob";
                 py "from: Alice"]))
  = Some (py "Alice", py "Bob", py "2014-03-03T09:15:00+00:00").
Proof. vm_compute. reflexivity. Qed.

(** C2, the claim as stated fails: the three header lines are there and no
    line stops the scan, but the From line has no value, so no record is
    returned. *)
Lemma empty_from_value_fails :
  let lines :=
    [py "From:"; py "To: Bob"; py "Sent: Jan 5 2024 10:00"; py "Hello"] in
  splitlines (text_of lines) = lines
  /\ existsb (offers example_parser HFrom) lines = true
  /\ existsb (offers example_parser HTo) lines = true
  /\ existsb (offers example_parser HSent) lines = true
  /\ stops_unfilled example_parser init_headers lines = false
  /\ parse_first_email example_parser (text_of lines) = None.
Proof. repeat split; vm_compute; reflexivity. Qed.

Lemma content_after_headers_witness :
  let text :=
    text_of [py "To: Bob"; py "early"; py "Sent: Jan 5 2024 10:00";
             py "From: Alice"; py "Subject: Hi"; py "Hello there"] in
  (existsb (offers_value example_parser HFrom) (splitlines text) = true
   /\ existsb (offers_value example_parser HTo) (splitlines text) = true
   /\ existsb (offers_value example_parser HSent) (splitlines text) = true
   /\ stops_unfilled example_parser init_headers (splitlines text) = false)
  /\ exists r pre l post h body,
       parse_first_email example_parser text = Some r
       /\ splitlines text = pre ++ l :: post
       /\ runs example_parser init_headers pre = Some h /\ filled h = false
       /\ (exists h', step example_parser h l = Continue h'
                      /\ filled h' = true)
       /\ sublist body post
       /\ Content r = concat (map piece body).
Proof.
  cbv zeta.
  set (text := text_of [py "To: Bob"; py "early"; py "Sent: Jan 5 2024 10:00";
                        py "From: Alice"; py "Subject: Hi"; py "Hello there"]).
  assert (H1 : existsb (offers_value example_parser HFrom) (splitlines text)
               = true) by (vm_compute; reflexivity).
  assert (H2 : existsb (offers_value example_parser HTo) (splitlines text)
               = true) by (vm_compute; reflexivity).
  assert (H3 : existsb (offers_value example_parser HSent) (splitlines text)
               = true) by (vm_compute; reflexivity).
  assert (H4 : stops_unfilled example_parser init_headers (splitlines text)
               = false) by (vm_compute; reflexivity).
  split; [auto|].
  exact (content_after_headers example_parser text H1 H2 H3 H4).
Defined.

(** C3, the claim as stated fails: the first From line has no value, and
    the second From line sets the field. *)
Lemma empty_first_from_overwritten :
  let lines :=
    [py "From:"; py "From: Alice"; py "To: Bob";
     py "Sent: Jan 5 2024 10:00"] in
  splitlines (text_of lines) = lines
  /\ offer example_parser HFrom (py "From:") = Some []
  /\ option_map From (parse_first_email example_parser (text_of lines))
     = Some (py "Alice").
Proof. repeat split; vm_compute; reflexivity. Qed.

Lemma first_value_wins_witness :
  let text :=
    text_of [py "From:"; py "From: Alice"; py "From: Carol"; py "To: Bob";
             py "Sent: Jan 5 2024 10:00"] in
  splitlines text
  = [py "From:"] ++ py "From: Alice"
    :: [py "From: Carol"; py "To: Bob"; py "Sent: Jan 5 2024 10:00"]
  /\ offer example_parser HFrom (py "From: Alice") = Some (py "Alice")
  /\ field HFrom (scan example_parser init_headers (splitlines text))
     = py "Alice"
  /\ forall r, parse_first_email example_parser text = Some r ->
       field HFrom r = py "Alice".
Proof.
  cbv zeta.
  set (text := text_of [py "From:"; py "From: Alice"; py "From: Carol";
                        py "To: Bob"; py "Sent: Jan 5 2024 10:00"]).
  assert (Hl : splitlines text
               = [py "From:"] ++ py "From: Alice"
                 :: [py "From: Carol"; py "To: Bob";
                     py "Sent: Jan 5 2024 10:00"])
    by (vm_compute; reflexivity).
  assert (Hpre : forall l', In l' [py "From:"] ->
                   offers_value example_parser HFrom l' = false).
  { intros l' [<-|[]]. vm_compute. reflexivity. }
  assert (Ho : offer example_parser HFrom (py "From: Alice")
               = Some (py "Alice")) by (vm_compute; reflexivity).
  assert (Hv : py "Alice" <> []) by discriminate.
  assert (Hr : runs example_parser init_headers [py "From:"] <> None)
    by (vm_compute; discriminate).
  split; [exact Hl|]. split; [exact Ho|].
  exact (first_value_wins example_parser HFrom text _ _ _ _ Hl Hpre Ho Hv Hr).
Defined.

(** C4, the claim as stated fails: the sender is the one the first rule is
    about and the Subject line holds both reply-opener substrings, but it is
    taken as the subject, and the line after it still goes into the
    content. *)
Lemma captured_line_does_not_stop :
  let subject := py "Subject: Den boken jeg skrev" in
  let lines :=
    [py "From: Kronprinsessen"; py "To: Bob"; py "Sent: Jan 5 2024 10:00";
     subject; py "Hello"] in
  splitlines (text_of lines) = lines
  /\ found (find (lower subject) (py "den")) = true
  /\ found (find (lower subject) (py "skrev")) = true
  /\ parse_first_email example_parser (text_of lines)
     = Some {| From := py "Kronprinsessen"; To := py "Bob";
               Sent := py "2024-01-05T10:00:00+00:00";
               Subject := py "Den boken jeg skrev";
               Content := py " " ++ [LF] ++ py "Hello" |}.
Proof. repeat split; vm_compute; reflexivity. Qed.

Lemma early_termination_witness :
  let text :=
    text_of [py "From: Kronprinsessen"; py "To: Bob";
             py "Sent: Jan 5 2024 10:00"; py "Hello";
             py "Den 3. mars kl. 10 skrev Bob:"; py "old text"] in
  let h :=
    {| From := py "Kronprinsessen"; To := py "Bob";
       Sent := py "2024-01-05T10:00:00+00:00"; Subject := [];
       Content := py " " ++ [LF] ++ py "Hello" |} in
  princess_rule h (py "Den 3. mars kl. 10 skrev Bob:") = true
  /\ scan example_parser init_headers (splitlines text) = h
  /\ parse_first_email example_parser text = result_of h.
Proof.
  cbv zeta.
  set (text := text_of [py "From: Kronprinsessen"; py "To: Bob";
                        py "Sent: Jan 5 2024 10:00"; py "Hello";
                        py "Den 3. mars kl. 10 skrev Bob:"; py "old text"]).
  set (h := {| From := py "Kronprinsessen"; To := py "Bob";
               Sent := py "2024-01-05T10:00:00+00:00"; Subject := [];
               Content := py " " ++ [LF] ++ py "Hello" |}).
  assert (Hl : splitlines text
               = [py "From: Kronprinsessen"; py "To: Bob";
                  py "Sent: Jan 5 2024 10:00"; py "Hello"]
                 ++ py "Den 3. mars kl. 10 skrev Bob:" :: [py "old text"])
    by (vm_compute; reflexivity).
  assert (Hr : runs example_parser init_headers
                 [py "From: Kronprinsessen"; py "To: Bob";
                  py "Sent: Jan 5 2024 10:00"; py "Hello"] = Some h)
    by (vm_compute; reflexivity).
  assert (Hc : captured example_parser h (py "Den 3. mars kl. 10 skrev Bob:")
               = false) by (vm_compute; reflexivity).
  assert (Hp : princess_rule h (py "Den 3. mars kl. 10 skrev Bob:") = true)
    by (vm_compute; reflexivity).
  assert (Hrule : (princess_rule h (py "Den 3. mars kl. 10 skrev Bob:")
                   || epstein_rule h (py "Den 3. mars kl. 10 skrev Bob:"))
                  = true) by (rewrite Hp; reflexivity).
  split; [exact Hp|].
  exact (early_termination example_parser text _ _ _ h Hl Hr Hc Hrule).
Defined.

(** C5, the claim as stated fails: the deletion of the asterisk completes a
    mobile signature marker, which a second application cuts. *)
Lemma asterisk_breaks_idempotence :
  remove_trailing_text (py "hello sent *from my iphone")
  = py "hello sent from my iphone"
  /\ remove_trailing_text
       (remove_trailing_text (py "hello sent *from my iphone"))
     = py "hello ".
Proof. split; vm_compute; reflexivity. Qed.

Lemma remove_trailing_text_idempotent_witness :
  ~ In STAR (py "Hello Bob. Sent from my iPhone")
  /\ remove_trailing_text
       (remove_trailing_text (py "Hello Bob. Sent from my iPhone"))
     = remove_trailing_text (py "Hello Bob. Sent from my iPhone").
Proof.
  assert (H : ~ In STAR (py "Hello Bob. Sent from my iPhone")).
  { vm_compute. intros H.
    repeat (destruct H as [H|H]; [discriminate H|]). exact H. }
  split; [exact H|].
  exact (remove_trailing_text_idempotent _ H).
Defined.

(** C6, the claim as stated fails: "please note" comes first and the
    disclaimer pass cuts there, but the mobile signature marker in front of
    it makes the next pass cut at the very start. *)
Lemma signature_cuts_before_please_note :
  let body :=
    py "Sent from my phone. Please note: The information contained in this message is private" in
  find (lower body) (py "the information contained in this") = 33%Z
  /\ find (lower body) (py "please note") = 20%Z
  /\ slice_to body 20 = py "Sent from my phone. "
  /\ remove_trailing_text body = [].
Proof. repeat split; vm_compute; reflexivity. Qed.

Lemma disclaimer_cut_at_please_note_witness :
  let body :=
    py "Hi. Please note: The information contained in this message is private" in
  (find (lower body) (py "the information contained in this") = Z.of_nat 17
   /\ find (lower body) (py "please note") = Z.of_nat 4)
  /\ remove_trailing_text body = remove_trailing_text (py "Hi. ")
  /\ remove_trailing_text body = py "Hi. ".
Proof.
  cbv zeta.
  set (body := py "Hi. Please note: The information contained in this message is private").
  assert (Hd : find (lower body) (py "the information contained in this")
               = Z.of_nat 17) by (vm_compute; reflexivity).
  assert (Hp : find (lower body) (py "please note") = Z.of_nat 4)
    by (vm_compute; reflexivity).
  assert (Hlt : 4 < 17) by lia.
  destruct (disclaimer_cut_at_please_note body 17 4 Hd Hp Hlt)
    as [H1 [_ H3]].
  split; [auto|]. split; [exact H1|].
  apply H3; vm_compute; reflexivity.
Defined.

(** C7, the claim as stated fails: the parser succeeds on a date of year 1
    with an offset of one hour, the conversion to UTC leaves the supported
    years, and [None] is returned; the caller keeps the raw string. *)
Lemma conversion_overflow_returns_none :
  let raw := py "0001-01-01 00:00:00 +01:00" in
  example_parser raw = Ok (mk_datetime 1 1 1 0 0 0 0 (Some 3600%Z))
  /\ normalize_date example_parser raw = None
  /\ option_map Sent
       (parse_first_email example_parser
          (text_of [py "From: Alice"; py "To: Bob";
                    py "Sent: 0001-01-01 00:00:00 +01:00"]))
     = Some raw.
Proof. repeat split; vm_compute; reflexivity. Qed.

(** * Further properties *)

(** ** The order of the [Sent] strings *)

Lemma str_ltb_irrefl (a : str) : str_ltb a a = false.
Proof.
  induction a as [|x a IH]; [reflexivity|]. simpl.
  rewrite N.ltb_irrefl, N.eqb_refl, IH. reflexivity.
Qed.

Lemma str_ltb_asym (a : str) : forall b, str_ltb a b = true -> str_ltb b a = false.
Proof.
  induction a as [|x a IH]; intros [|y b] H; simpl in *; try reflexivity;
    try discriminate.
  destruct (N.ltb_spec (code x) (code y)), (N.ltb_spec (code y) (code x)),
    (N.eqb_spec (code x) (code y)), (N.eqb_spec (code y) (code x));
    simpl in *; try lia; try discriminate; auto.
Qed.

(** "Not below" is transitive. *)
Lemma str_ltb_false_trans (a : str) :
  forall b c, str_ltb a b = false -> str_ltb b c = false -> str_ltb a c = false.
Proof.
  induction a as [|x a IH]; intros [|y b] [|z c] H1 H2; simpl in *;
    try reflexivity; try discriminate.
  destruct (N.ltb_spec (code x) (code y)), (N.ltb_spec (code y) (code z)),
    (N.ltb_spec (code x) (code z)), (N.eqb_spec (code x) (code y)),
    (N.eqb_spec (code y) (code z)), (N.eqb_spec (code x) (code z));
    simpl in *; try lia; try discriminate; eauto.
Qed.

Lemma str_eqb_eq (a : str) : forall b, str_eqb a b = true -> a = b.
Proof.
  induction a as [|x a IH]; intros [|y b] H; simpl in H; try discriminate;
    [reflexivity|].
  apply andb_prop in H as [H1 H2]. apply eqb_true in H1. subst.
  f_equal. auto.
Qed.

(** ** sorted *)

Lemma insert_desc_perm (e : email) (l : list email) :
  Permutation (insert_desc e l) (e :: l).
Proof.
  induction l as [|y l IH]; simpl; [reflexivity|].
  destruct (str_ltb _ _); [|reflexivity].
  rewrite IH. apply perm_swap.
Qed.

Lemma sorted_desc_perm (l : list email) : Permutation (sorted_desc l) l.
Proof.
  induction l as [|e l IH]; simpl; [reflexivity|].
  rewrite insert_desc_perm. constructor. exact IH.
Qed.

Lemma insert_desc_sorted (e : email) (l : list email) :
  StronglySorted not_older l -> StronglySorted not_older (insert_desc e l).
Proof.
  induction l as [|y l IH]; intros H; simpl.
  - repeat constructor.
  - inversion H as [|? ? Hs Hf]; subst.
    destruct (str_ltb (Sent (fields e)) (Sent (fields y))) eqn:E.
    + constructor; [auto|].
      rewrite Forall_forall in *. intros z Hz.
      apply (Permutation_in _ (insert_desc_perm e l)) in Hz.
      destruct Hz as [<-|Hz]; [|auto].
      unfold not_older. apply str_ltb_asym. exact E.
    + constructor; [exact H|]. constructor; [exact E|].
      rewrite Forall_forall in *. intros z Hz. unfold not_older in *.
      eapply str_ltb_false_trans; eauto.
Qed.

Lemma sorted_desc_sorted (l : list email) :
  StronglySorted not_older (sorted_desc l).
Proof.
  induction l as [|e l IH]; simpl; [constructor|].
  apply insert_desc_sorted. exact IH.
Qed.

Lemma insert_desc_sent_at (sent : str) (e : email) (l : list email) :
  sent_at sent (insert_desc e l) = sent_at sent (e :: l).
Proof.
  induction l as [|y l IH]; [reflexivity|]. simpl insert_desc.
  destruct (str_ltb (Sent (fields e)) (Sent (fields y))) eqn:E; [|reflexivity].
  unfold sent_at in *. cbn [filter] in *. rewrite IH.
  destruct (str_eqb (Sent (fields e)) sent) eqn:E1; [|reflexivity].
  destruct (str_eqb (Sent (fields y)) sent) eqn:E2; [|reflexivity].
  apply str_eqb_eq in E1, E2. rewrite E1, E2, str_ltb_irrefl in E.
  discriminate.
Qed.

Lemma sorted_desc_sent_at (sent : str) (l : list email) :
  sent_at sent (sorted_desc l) = sent_at sent l.
Proof.
  induction l as [|e l IH]; [reflexivity|]. simpl sorted_desc.
  rewrite insert_desc_sent_at. unfold sent_at in *. cbn [filter].
  rewrite IH. reflexivity.
Qed.

(** ** The loop over the documents *)

Section ScriptProperties.

Variable parse : str -> result datetime.

Lemma process_failed (g : globals) (d : document) :
  parses parse d = false ->
  process parse g d =
  {| emails := emails g; total_emails := total_emails g + 1;
     failed := failed g ++ [pdf_file d];
     sorted_emails := sorted_emails g;
     printed := printed g ++ [py "Failed to parse " ++ pdf_file d] |}.
Proof.
  unfold parses, process. fold (full_text d).
  destruct (parse_first_email parse (full_text d)); [discriminate|reflexivity].
Qed.

Lemma process_parsed (g : globals) (d : document) :
  parses parse d = true ->
  exists e,
    Path e = pdf_file d /\ FileName e = basename (pdf_file d)
    /\ emails (process parse g d) = emails g ++ [e]
    /\ total_emails (process parse g d) = total_emails g + 1
    /\ failed (process parse g d) = failed g
    /\ sorted_emails (process parse g d) = Some (sorted_desc (emails g ++ [e])).
Proof.
  unfold parses, process. fold (full_text d).
  destruct (parse_first_email parse (full_text d)) as [h|]; [|discriminate].
  intros _. eexists.
  split; [|split; [|split; [reflexivity|]]]; repeat split.
Qed.

(** What the loop leaves in the module-level variables. *)
Lemma process_fold (docs : list document) :
  forall g,
    total_emails (fold_left (process parse) docs g)
    = total_emails g + length docs
    /\ failed (fold_left (process parse) docs g)
       = failed g
         ++ map pdf_file (filter (fun d => negb (parses parse d)) docs)
    /\ map Path (emails (fold_left (process parse) docs g))
       = map Path (emails g) ++ map pdf_file (filter (parses parse) docs)
    /\ sorted_emails (fold_left (process parse) docs g)
       = (if existsb (parses parse) docs
          then Some (sorted_desc (emails (fold_left (process parse) docs g)))
          else sorted_emails g)
    /\ (existsb (parses parse) docs = false ->
        emails (fold_left (process parse) docs g) = emails g).
Proof.
  induction docs as [|d docs IH]; intros g.
  - simpl. rewrite !app_nil_r. repeat split; lia.
  - cbn [fold_left]. destruct (IH (process parse g d)) as (T & F & P & S & E).
    cbn [filter existsb length]. destruct (parses parse d) eqn:Hd; cbn [negb orb].
    + destruct (process_parsed g d Hd) as (e & He & _ & Em & Tm & Fm & Sm).
      rewrite T, F, P, Tm, Fm, Em, map_app. cbn [map]. rewrite He.
      rewrite <- !app_assoc. repeat split; try lia; try discriminate.
      rewrite S. destruct (existsb (parses parse) docs); [reflexivity|].
      rewrite (E eq_refl), Sm, Em. reflexivity.
    + rewrite (process_failed g d Hd) in *. cbn [total_emails failed emails
        sorted_emails] in *.
      rewrite T, F, P. cbn [map]. rewrite <- !app_assoc.
      repeat split; try lia; auto.
Qed.

Lemma main_cases (CSV_FILE : str) (docs : list document) :
  let g := fold_left (process parse) docs init_globals in
  if existsb (parses parse) docs then
    csv_file (main parse CSV_FILE docs)
    = Some (fieldnames :: map row (sorted_desc (emails g)))
    /\ stats_file (main parse CSV_FILE docs)
       = Some {| successfull := length (sorted_desc (emails g));
                 total := total_emails g; stats_failed := failed g |}
    /\ raised (main parse CSV_FILE docs) = None
  else
    csv_file (main parse CSV_FILE docs) = Some [fieldnames]
    /\ stats_file (main parse CSV_FILE docs) = None
    /\ raised (main parse CSV_FILE docs) = Some NameError.
Proof.
  cbv zeta. unfold main.
  destruct (process_fold docs init_globals) as (_ & _ & _ & S & _).
  rewrite S. destruct (existsb (parses parse) docs); repeat split.
Qed.

(** On documents that were all read, the run ends in a [NameError] exactly
    when no document yields a record; otherwise it ends normally.  The table
    is written either way, the summary only when the run ends normally. *)
Lemma main_raises_iff (CSV_FILE : str) (docs : list document) :
  raised (main parse CSV_FILE docs)
  = (if existsb (parses parse) docs then None else Some NameError)
  /\ (stats_file (main parse CSV_FILE docs) = None
      <-> existsb (parses parse) docs = false)
  /\ csv_file (main parse CSV_FILE docs) <> None.
Proof.
  pose proof (main_cases CSV_FILE docs) as M. cbv zeta in M.
  destruct (existsb (parses parse) docs); destruct M as (C & S & R);
    rewrite C, S, R; repeat split; intros; try discriminate; auto.
Qed.

Lemma walk_spec (files : list pdf) :
  forall g,
    walk parse g files
    = if existsb unreadable files
      then inr (printed (fold_left (process parse) (readable_prefix files) g))
      else inl (fold_left (process parse) (readable_prefix files) g).
Proof.
  induction files as [|[d|path] files IH]; intros g;
    cbn [walk existsb unreadable readable_prefix fold_left orb];
    [reflexivity|apply IH|reflexivity].
Qed.

Lemma readable_prefix_all (files : list pdf) :
  existsb unreadable files = false ->
  map Readable (readable_prefix files) = files.
Proof.
  induction files as [|[d|path] files IH]; cbn [existsb unreadable orb];
    intros H; [reflexivity| |discriminate].
  cbn [readable_prefix map]. rewrite (IH H). reflexivity.
Qed.

(** When every file is read, the script is [main] on the documents. *)
Lemma script_readable (CSV_FILE : str) (docs : list document) :
  script parse CSV_FILE (map Readable docs) = main parse CSV_FILE docs.
Proof.
  assert (U : existsb unreadable (map Readable docs) = false)
    by (induction docs as [|d docs IH]; [reflexivity|exact IH]).
  assert (R : readable_prefix (map Readable docs) = docs).
  { induction docs as [|d docs IH]; [reflexivity|].
    cbn [map readable_prefix]. f_equal. apply IH. exact U. }
  unfold script. rewrite walk_spec, U, R. reflexivity.
Qed.


(** X2: in the summary of a run that ends normally, [total] is the number
    of documents, [successfull] and the length of [failed] add up to it,
    [failed] lists the paths of the documents without a record in the order
    of the walk, and the table has one data row per successful document. *)
Theorem main_counts (CSV_FILE : str) (docs : list document) (st : stats) :
  stats_file (main parse CSV_FILE docs) = Some st ->
  total st = length docs
  /\ successfull st + length (stats_failed st) = total st
  /\ stats_failed st
     = map pdf_file (filter (fun d => negb (parses parse d)) docs)
  /\ exists rows, csv_file (main parse CSV_FILE docs) = Some (fieldnames :: rows)
                  /\ length rows = successfull st.
Proof.
  pose proof (main_cases CSV_FILE docs) as M. cbv zeta in M.
  destruct (process_fold docs init_globals) as (T & F & P & _ & _).
  cbn [emails failed total_emails init_globals map app] in T, F, P.
  destruct (existsb (parses parse) docs); destruct M as (C & S & R);
    rewrite S; intros H; [|discriminate].
  injection H as <-. cbn [total successfull stats_failed].
  assert (L : length (sorted_desc
                        (emails (fold_left (process parse) docs init_globals)))
              = length (filter (parses parse) docs)).
  { rewrite (Permutation_length (sorted_desc_perm _)).
    rewrite <- (length_map Path), P, length_map. reflexivity. }
  rewrite T, F, L, C, length_map. repeat split.
  - apply filter_length.
  - eexists. split; [reflexivity|]. rewrite length_map. exact L.
Qed.

(** X3: the data rows of the table are in non-increasing order of their
    [Sent] strings: no row is older than a row below it. *)
Theorem main_rows_sorted (CSV_FILE : str) (docs : list document) :
  exists es,
    csv_file (main parse CSV_FILE docs) = Some (fieldnames :: map row es)
    /\ StronglySorted not_older es.
Proof.
  pose proof (main_cases CSV_FILE docs) as M. cbv zeta in M.
  destruct (existsb (parses parse) docs); destruct M as (C & _ & _).
  - eexists. split; [exact C|]. apply sorted_desc_sorted.
  - exists []. split; [exact C|]. constructor.
Qed.

Lemma filter_partition {A : Type} (f : A -> bool) (l : list A) :
  Permutation l (filter f l ++ filter (fun x => negb (f x)) l).
Proof.
  induction l as [|x l IH]; [reflexivity|]. simpl.
  destruct (f x); simpl.
  - constructor. exact IH.
  - apply Permutation_cons_app. exact IH.
Qed.

(** X4: in a run that ends normally every document is accounted for exactly
    once, as the [Path] of a data row or as an entry of [failed]. *)
Theorem main_accounts_for_documents (CSV_FILE : str) (docs : list document)
    (st : stats) :
  stats_file (main parse CSV_FILE docs) = Some st ->
  exists es,
    csv_file (main parse CSV_FILE docs) = Some (fieldnames :: map row es)
    /\ Permutation (map pdf_file docs) (map Path es ++ stats_failed st).
Proof.
  pose proof (main_cases CSV_FILE docs) as M. cbv zeta in M.
  destruct (process_fold docs init_globals) as (_ & F & P & _ & _).
  cbn [emails failed init_globals map app] in F, P.
  destruct (existsb (parses parse) docs); destruct M as (C & S & R);
    rewrite S; intros H; [|discriminate].
  injection H as <-. cbn [stats_failed].
  eexists. split; [exact C|].
  rewrite (Permutation_map Path (sorted_desc_perm _)), P, F.
  rewrite <- map_app.
  apply Permutation_map. apply filter_partition.
Qed.

(** X5: the sort is stable: the rows that share a [Sent] string stand in
    the order in which the loop appended their e-mails. *)
Theorem main_rows_stable (CSV_FILE : str) (docs : list document) (sent : str) :
  exists es,
    csv_file (main parse CSV_FILE docs) = Some (fieldnames :: map row es)
    /\ sent_at sent es
       = sent_at sent (emails (fold_left (process parse) docs init_globals)).
Proof.
  pose proof (main_cases CSV_FILE docs) as M. cbv zeta in M.
  destruct (process_fold docs init_globals) as (_ & _ & _ & _ & E).
  destruct (existsb (parses parse) docs); destruct M as (C & _ & _).
  - eexists. split; [exact C|]. apply sorted_desc_sent_at.
  - exists []. split; [exact C|]. rewrite (E eq_refl). reflexivity.
Qed.

End ScriptProperties.

(** ** Stripping twice *)

Lemma lstrip_by_fixed (p : ascii -> bool) (s : str) :
  (forall c t, s = c :: t -> p c = false) -> lstrip_by p s = s.
Proof.
  destruct s as [|c s]; [reflexivity|]. intros H. simpl.
  rewrite (H c s eq_refl). reflexivity.
Qed.

Lemma rstrip_by_fixed (p : ascii -> bool) (s : str) :
  (forall t c, s = t ++ [c] -> p c = false) -> rstrip_by p s = s.
Proof.
  intros H. unfold rstrip_by. rewrite lstrip_by_fixed.
  - apply rev_involutive.
  - intros c t E. apply (H (rev t) c).
    rewrite <- (rev_involutive s), E. reflexivity.
Qed.

Lemma strip_by_fixed (p : ascii -> bool) (s : str) :
  (forall c t, s = c :: t -> p c = false) ->
  (forall t c, s = t ++ [c] -> p c = false) ->
  strip_by p s = s.
Proof.
  intros H1 H2. unfold strip_by. rewrite (lstrip_by_fixed p s H1).
  apply rstrip_by_fixed. exact H2.
Qed.

Lemma strip_strip (s : str) : strip (strip s) = strip s.
Proof.
  unfold strip. apply strip_by_fixed.
  - intros c t. apply strip_by_head.
  - intros t c. apply strip_by_last.
Qed.

(** ** More on the scan *)

Lemma clean_text_one_line (text : str) : one_line (clean_text text).
Proof.
  destruct (clean_text_shape text) as [w [-> [Hs Hb]]].
  destruct (strip_by_infix isspace w) as [a [b Hw]]. fold (strip w) in Hw.
  assert (Hb' : blank_only (strip w)).
  { apply (blank_only_infix a _ b). rewrite <- Hw. exact Hb. }
  repeat split.
  - apply blank_only_not_in; auto. discriminate.
  - apply blank_only_not_in; auto. discriminate.
  - intros c t. apply strip_by_head.
  - intros t c. apply strip_by_last.
Qed.

Lemma one_line_nil : one_line [].
Proof.
  unfold one_line. split; [intros []|]. split; [intros []|].
  split; [discriminate|]. intros t c H. destruct t; discriminate.
Qed.

Section MoreScanProperties.

Variable parse : str -> result datetime.

Lemma step_blank (h : headers) (raw : str) :
  nonblank raw = false -> step parse h raw = Continue h.
Proof.
  unfold nonblank. intros H. rewrite step_unfold. cbv zeta. rewrite H.
  reflexivity.
Qed.

Lemma step_strip (h : headers) (raw : str) :
  step parse h (strip raw) = step parse h raw.
Proof.
  rewrite !step_unfold. cbv zeta.
  unfold princess_rule, epstein_rule, piece. rewrite !strip_strip.
  reflexivity.
Qed.

Lemma scan_strip_nonblank (lines : list str) :
  forall h,
    scan parse h (map strip (filter nonblank lines)) = scan parse h lines.
Proof.
  induction lines as [|l lines IH]; intros h; [reflexivity|].
  cbn [filter]. destruct (nonblank l) eqn:B.
  - cbn [map scan]. rewrite step_strip.
    destruct (step parse h l); [apply IH|reflexivity].
  - cbn [scan]. rewrite (step_blank h l B). apply IH.
Qed.

(** X6: blank lines and the whitespace around a line do not matter: two
    texts whose non-blank lines agree once stripped give the same result. *)
Theorem parse_first_email_layout (text text' : str) :
  map strip (filter nonblank (splitlines text))
  = map strip (filter nonblank (splitlines text')) ->
  parse_first_email parse text = parse_first_email parse text'.
Proof.
  intros H. rewrite !parse_first_email_result.
  rewrite <- (scan_strip_nonblank (splitlines text)),
    <- (scan_strip_nonblank (splitlines text')), H.
  reflexivity.
Qed.

Lemma offer_blank (k : header) (raw : str) :
  strip raw = [] -> offer parse k raw = None.
Proof.
  intros H. unfold offer. rewrite H. destruct k; reflexivity.
Qed.

(** X7: a line that starts with the keyword of a header whose field is
    already filled is not skipped: once the mandatory fields are filled, and
    unless a sender rule stops the scan on it, it is appended to the content
    like any body line. *)
Theorem repeated_header_is_body (h : headers) (raw : str) (k : header)
    (v : str) :
  offer parse k raw = Some v ->
  truthy (field k h) = true ->
  filled h = true ->
  (princess_rule h raw || epstein_rule h raw) = false ->
  step parse h raw = Continue (set_Content h (Content h ++ piece raw)).
Proof.
  intros Ho Ht Hf Hr. pose proof (step_spec parse h raw) as S.
  destruct (step parse h raw) as [h'|].
  - destruct S as [(k0 & v0 & Ho0 & Ht0 & _)|[(_ & _ & _ & ->)|(_ & _ & _ & [F|B])]].
    + rewrite (offer_exclusive parse _ _ _ _ _ Ho0 Ho) in Ht0. congruence.
    + reflexivity.
    + congruence.
    + rewrite (offer_blank k raw B) in Ho. discriminate.
  - destruct S as [_ S]. congruence.
Qed.

Lemma scan_preserves (k : header) (Q : str -> Prop) (lines : list str) :
  (forall l v, In l lines -> offer parse k l = Some v -> Q v) ->
  Q [] ->
  forall h, Q (field k h) -> Q (field k (scan parse h lines)).
Proof.
  intros Ho Hn. induction lines as [|l lines IH]; intros h Hh; [exact Hh|].
  cbn [scan]. destruct (step parse h l) as [h'|] eqn:S; [|exact Hh].
  apply IH.
  - intros l' v Hin. apply Ho. right. exact Hin.
  - rewrite (step_field parse h h' l k S).
    destruct (truthy (field k h)); [exact Hh|].
    destruct (offer parse k l) as [v|] eqn:E; [|exact Hn].
    apply (Ho l v); [left; reflexivity|exact E].
Qed.

Lemma offer_one_line (k : header) (raw v : str) :
  k <> HSent -> offer parse k raw = Some v -> one_line v.
Proof.
  intros Hk. unfold offer. cbv zeta.
  destruct k; [| |congruence|];
    match goal with |- context [if ?b then _ else _] => destruct b end;
    intros H; try discriminate; injection H as <-; apply clean_text_one_line.
Qed.

(** X8: in every record [parse_first_email] returns, the From, To and
    Subject values are on one line (no newline, no carriage return) and have
    no whitespace at either end. *)
Theorem header_values_one_line (text : str) (r : headers) :
  parse_first_email parse text = Some r ->
  one_line (From r) /\ one_line (To r) /\ one_line (Subject r).
Proof.
  rewrite parse_first_email_result. unfold result_of.
  destruct (filled _); [|discriminate]. intros H. injection H as <-.
  assert (G : forall k, k <> HSent ->
            one_line (field k (scan parse init_headers (splitlines text)))).
  { intros k Hk. apply scan_preserves.
    - intros l v _. apply offer_one_line. exact Hk.
    - apply one_line_nil.
    - destruct k; apply one_line_nil. }
  repeat split; try apply (G HFrom); try apply (G HTo); try apply (G HSubject);
    discriminate.
Qed.

Lemma step_break_marked (h : headers) (raw : str) :
  step parse h raw = Break -> marked (From h) = true.
Proof.
  intros H. apply step_break_iff in H as [_ H].
  unfold princess_rule, epstein_rule, marked in *.
  destruct (found (find (lower (From h)) (py "kronprinsessen")));
    [reflexivity|].
  destruct (found (find (lower (From h)) (py "epstein")));
    [reflexivity|discriminate].
Qed.

(** X9: the scan stops early only for the two senders: when no From line
    of the text offers a value that names one of them, every line is
    scanned. *)
Theorem unmarked_sender_scans_all (text : str) :
  (forall l v, In l (splitlines text) ->
     offer parse HFrom l = Some v -> marked v = false) ->
  runs parse init_headers (splitlines text)
  = Some (scan parse init_headers (splitlines text)).
Proof.
  intros H.
  assert (G : forall lines h,
            (forall l v, In l lines ->
               offer parse HFrom l = Some v -> marked v = false) ->
            marked (From h) = false ->
            runs parse h lines = Some (scan parse h lines)).
  { induction lines as [|l lines IH]; intros h Ho Hm; [reflexivity|].
    cbn [runs scan]. destruct (step parse h l) as [h'|] eqn:S.
    - apply IH.
      + intros l' v Hin. apply Ho. right. exact Hin.
      + change (From h') with (field HFrom h').
        rewrite (step_field parse h h' l HFrom S).
        destruct (truthy (field HFrom h)); [exact Hm|].
        destruct (offer parse HFrom l) as [v|] eqn:E; [|reflexivity].
        apply (Ho l v); [left; reflexivity|exact E].
    - apply step_break_marked in S. congruence. }
  apply G; [exact H|reflexivity].
Qed.

End MoreScanProperties.

(** ** Bodies that remove_trailing_text leaves alone *)

Lemma prefix_full (s p u : str) : s = p ++ u -> length s <= length p -> p = s.
Proof.
  intros -> H. rewrite length_app in H. destruct u; [|simpl in H; lia].
  symmetry. apply app_nil_r.
Qed.

Lemma prefix_length (s p u : str) : s = p ++ u -> length p <= length s.
Proof. intros ->. rewrite length_app. lia. Qed.

Lemma cut_fixed_clean (m : cont) (s : str) :
  consuming m -> cut m s = s -> search m s = None.
Proof.
  intros Hc. unfold cut. destruct (search m s) as [i|] eqn:E; [|reflexivity].
  intros H. apply search_some in E as [Hi [Hm _]].
  apply (f_equal (@length ascii)) in H. rewrite length_firstn in H.
  assert (i = length s) by lia. subst i.
  rewrite matches_at_end in Hm by assumption. discriminate.
Qed.

Lemma cut_disclaimer_fixed_clean (s : str) :
  cut_disclaimer s = s ->
  search (m_find (py "the information contained in this")) s = None.
Proof.
  unfold cut_disclaimer.
  destruct (search (m_find (py "the information contained in this")) s)
    as [i|] eqn:E; [|reflexivity].
  intros H. apply search_some in E as [Hi [Hm _]].
  destruct (cut_prefix (m_find (py "please note")) (firstn i s)) as [u Hu].
  apply prefix_length in Hu. rewrite H, length_firstn in Hu.
  assert (i = length s) by lia. subst i.
  rewrite matches_at_end in Hm; [discriminate|].
  apply m_find_consuming. discriminate.
Qed.

(** When the passes return the whole body, none of their patterns occurs
    in it. *)
Lemma cuts_fixed_clean (s : str) :
  cuts s = s ->
  search (m_find (py "the information contained in this")) s = None
  /\ search (m_find (py "sent from my ")) s = None
  /\ search (m_find (py "sendt fra min ")) s = None
  /\ search (re_den_skrev accept) s = None
  /\ search (re_on_wrote accept) s = None.
Proof.
  unfold cuts, later_cuts. intros H.
  remember (cut_disclaimer s) as s0 eqn:D0.
  remember (cut (m_find (py "sent from my ")) s0) as s1 eqn:D1.
  remember (cut (m_find (py "sendt fra min ")) s1) as s2 eqn:D2.
  remember (cut (re_den_skrev accept) s2) as s3 eqn:D3.
  remember (cut (re_on_wrote accept) s3) as s4 eqn:D4.
  destruct (cut_disclaimer_prefix s) as [u0 H0]. rewrite <- D0 in H0.
  destruct (cut_prefix (m_find (py "sent from my ")) s0) as [u1 H1].
  rewrite <- D1 in H1.
  destruct (cut_prefix (m_find (py "sendt fra min ")) s1) as [u2 H2].
  rewrite <- D2 in H2.
  destruct (cut_prefix (re_den_skrev accept) s2) as [u3 H3].
  rewrite <- D3 in H3.
  destruct (cut_prefix (re_on_wrote accept) s3) as [u4 H4].
  rewrite <- D4 in H4.
  pose proof (prefix_length _ _ _ H0) as L0.
  pose proof (prefix_length _ _ _ H1) as L1.
  pose proof (prefix_length _ _ _ H2) as L2.
  pose proof (prefix_length _ _ _ H3) as L3.
  pose proof (prefix_length _ _ _ H4) as L4.
  assert (L : length s4 = length s) by (rewrite H; reflexivity).
  assert (E0 : s0 = s) by (apply (prefix_full _ _ _ H0); lia).
  assert (E1 : s1 = s0) by (apply (prefix_full _ _ _ H1); lia).
  rewrite E0 in E1.
  assert (E2 : s2 = s1) by (apply (prefix_full _ _ _ H2); lia).
  rewrite E1 in E2.
  assert (E3 : s3 = s2) by (apply (prefix_full _ _ _ H3); lia).
  rewrite E2 in E3.
  rewrite E0 in D0. rewrite E1, E0 in D1. rewrite E2, E1 in D2.
  rewrite E3, E2 in D3. rewrite H, E3 in D4.
  symmetry in D0, D1, D2, D3, D4.
  split; [apply cut_disclaimer_fixed_clean; exact D0|].
  split; [apply cut_fixed_clean;
          [apply m_find_consuming; discriminate|exact D1]|].
  split; [apply cut_fixed_clean;
          [apply m_find_consuming; discriminate|exact D2]|].
  split; [apply cut_fixed_clean; [apply den_skrev_consuming|exact D3]|].
  apply cut_fixed_clean; [apply on_wrote_consuming|exact D4].
Qed.

Lemma find_none_iff (s needle : str) :
  find (lower s) needle = (-1)%Z <-> search (m_find needle) s = None.
Proof.
  split; [apply find_none|]. intros H. rewrite find_lower, H. reflexivity.
Qed.

(** X10: [remove_trailing_text] returns a body of code points 0..255
    unchanged exactly when the body has no asterisk and none of the five
    patterns occurs in it. *)
Theorem remove_trailing_text_fixed_iff (body : str) :
  remove_trailing_text body = body <->
  ~ In STAR body
  /\ find (lower body) (py "the information contained in this") = (-1)%Z
  /\ find (lower body) (py "sent from my ") = (-1)%Z
  /\ find (lower body) (py "sendt fra min ") = (-1)%Z
  /\ re_search re_den_skrev body = None
  /\ re_search re_on_wrote body = None.
Proof.
  rewrite !find_none_iff. unfold re_search.
  rewrite remove_trailing_text_cuts. split.
  - intros H. destruct (cuts_prefix body) as [u Hu].
    assert (E : cuts body = body).
    { apply (prefix_full _ _ _ Hu).
      rewrite <- H at 1. apply without_stars_length. }
    rewrite E in H. split.
    + rewrite <- H. apply without_stars_clean.
    + apply cuts_fixed_clean. exact E.
  - intros (Hs & H0 & H1 & H2 & H3 & H4).
    unfold cuts. rewrite (cut_disclaimer_none body H0).
    rewrite (later_cuts_fixed body H1 H2 H3 H4).
    apply without_stars_id. exact Hs.
Qed.

(** X11: for a body of code points 0..255 without asterisks, what
    [remove_trailing_text] returns holds none of the five patterns any
    more. *)
Theorem remove_trailing_text_clean (body : str) :
  ~ In STAR body ->
  find (lower (remove_trailing_text body))
       (py "the information contained in this") = (-1)%Z
  /\ find (lower (remove_trailing_text body)) (py "sent from my ") = (-1)%Z
  /\ find (lower (remove_trailing_text body)) (py "sendt fra min ") = (-1)%Z
  /\ re_search re_den_skrev (remove_trailing_text body) = None
  /\ re_search re_on_wrote (remove_trailing_text body) = None.
Proof.
  intros Hs. rewrite !find_none_iff. unfold re_search.
  rewrite remove_trailing_text_cuts.
  assert (Hc : without_stars (cuts body) = cuts body).
  { apply without_stars_id. destruct (cuts_prefix body) as [u Hu].
    intros Hin. apply Hs. rewrite Hu. apply in_or_app. left. exact Hin. }
  rewrite Hc.
  destruct (later_cuts_clean (cut_disclaimer body)) as (H1 & H2 & H3 & H4).
  split; [|unfold cuts; auto].
  destruct (later_cuts_prefix (cut_disclaimer body)) as [u Hu].
  apply (search_none_prefix _ _ u); [apply m_find_extends|].
  unfold cuts. rewrite <- Hu. apply cut_disclaimer_clean.
Qed.

(** ** How much clean_text can change *)

Lemma re_sub_length (m : str -> option nat) (repl : str) :
  length repl <= 1 ->
  forall n s, length s <= n -> length (re_sub m repl s) <= length s.
Proof.
  intros Hr. induction n as [|n IH]; intros s Hn.
  - destruct s; [simpl; lia|simpl in Hn; lia].
  - destruct s as [|c s]; [simpl; lia|]. simpl in Hn.
    rewrite re_sub_cons. destruct (m (c :: s)) as [[|k]|].
    + simpl. specialize (IH s ltac:(lia)). lia.
    + rewrite length_app. pose proof (length_skipn k s) as Hk.
      specialize (IH (skipn k s) ltac:(lia)). simpl. lia.
    + simpl. specialize (IH s ltac:(lia)). lia.
Qed.

Lemma replace_length (s old new : str) :
  length new <= 1 -> length (replace s old new) <= length s.
Proof. intros H. unfold replace. apply (re_sub_length _ _ H (length s)). lia. Qed.

Lemma strip_length (s : str) : length (strip s) <= length s.
Proof.
  destruct (strip_by_infix isspace s) as [a [b H]]. fold (strip s) in H.
  apply (f_equal (@length ascii)) in H. rewrite !length_app in H. lia.
Qed.

(** X12: [clean_text] never makes a text longer. *)
Theorem clean_text_length (text : str) :
  length (clean_text text) <= length text.
Proof.
  unfold clean_text. cbv zeta.
  eapply Nat.le_trans; [apply strip_length|].
  eapply Nat.le_trans;
    [apply (re_sub_length m_crlf [LF] (le_n 1) _ _ (le_n _))|].
  eapply Nat.le_trans;
    [apply (re_sub_length m_spaces (py " ") (le_n 1) _ _ (le_n _))|].
  eapply Nat.le_trans; [apply replace_length; simpl; lia|].
  eapply Nat.le_trans;
    [apply (re_sub_length m_escape [] (Nat.le_0_l 1) _ _ (le_n _))|].
  apply replace_length. simpl. lia.
Qed.

Lemma no_space_run_tail (c : ascii) (s : str) :
  no_space_run (c :: s) -> no_space_run s.
Proof.
  intros H pre a b post E. apply (H (c :: pre) a b post). rewrite E.
  reflexivity.
Qed.

Lemma collapse_fixed (s : str) :
  blank_only s -> no_space_run s -> re_sub m_spaces (py " ") s = s.
Proof.
  induction s as [|c s IH]; intros Hb Hn; [reflexivity|].
  inversion Hb as [|? ? Hc Hb']; subst.
  rewrite collapse_cons. destruct (isspace c) eqn:E.
  - rewrite (Hc eq_refl). f_equal. rewrite lstrip_by_fixed.
    + apply IH; [exact Hb'|]. eapply no_space_run_tail; eauto.
    + intros x t ->. destruct (isspace x) eqn:Ex; [|reflexivity].
      exfalso. apply (Hn [] c x t); auto.
  - f_equal. apply IH; [exact Hb'|]. eapply no_space_run_tail; eauto.
Qed.

Lemma startswith_head (t : str) (a : ascii) (p : str) :
  startswith t (a :: p) = true -> exists t', t = a :: t'.
Proof.
  destruct t as [|c t]; simpl; [discriminate|]. intros H.
  apply andb_prop in H as [H _]. apply eqb_true in H. subst. eauto.
Qed.

(** A text that is already tidy and holds no [=] is left as it is. *)
Lemma clean_text_fixed (text : str) :
  ~ In "="%char text -> blank_only text -> no_space_run text ->
  (forall c t, text = c :: t -> isspace c = false) ->
  (forall t c, text = t ++ [c] -> isspace c = false) ->
  clean_text text = text.
Proof.
  intros He Hb Hn Hhd Hlast. unfold clean_text. cbv zeta.
  assert (R : forall old new,
            replace text ("="%char :: old) new = text).
  { intros old new. unfold replace. apply re_sub_no_match. intros a b ->.
    destruct (startswith b ("="%char :: old)) eqn:S; [|reflexivity].
    apply startswith_head in S as [t' ->]. exfalso. apply He.
    apply in_or_app. right. left. reflexivity. }
  change (py "=br>") with ("="%char :: py "br>").
  change (py "=8E") with ("="%char :: py "8E").
  rewrite R.
  rewrite (re_sub_no_match m_escape [] text).
  - rewrite R, (collapse_fixed text Hb Hn).
    rewrite (re_sub_no_match m_crlf [LF] text).
    + apply strip_by_fixed; assumption.
    + apply m_crlf_none. apply blank_only_not_in; auto. discriminate.
  - intros a b ->. unfold m_escape.
    destruct b as [|e [|d1 [|d2 rest]]]; try reflexivity.
    destruct (Ascii.eqb e "="%char) eqn:E; [|reflexivity].
    apply eqb_true in E. subst e. exfalso. apply He.
    apply in_or_app. right. left. reflexivity.
Qed.

(** X13: cleaning a second time changes nothing, unless the first cleaning
    left an [=] in the text. *)
Theorem clean_text_twice (text : str) :
  ~ In "="%char (clean_text text) ->
  clean_text (clean_text text) = clean_text text.
Proof.
  intros He. apply clean_text_fixed; [exact He| | | |].
  - destruct (clean_text_shape text) as [w [-> [Hs Hb]]].
    destruct (strip_by_infix isspace w) as [a [b Hw]]. fold (strip w) in Hw.
    apply (blank_only_infix a _ b). rewrite <- Hw. exact Hb.
  - destruct (clean_text_shape text) as [w [-> [Hs Hb]]].
    destruct (strip_by_infix isspace w) as [a [b Hw]]. fold (strip w) in Hw.
    apply (no_space_run_infix a _ b). rewrite <- Hw.
    apply single_spaced_no_run. exact Hs.
  - apply (clean_text_one_line text).
  - apply (clean_text_one_line text).
Qed.

(** ** The rows of the table *)

Lemma upto_slash_spec (s : str) :
  ~ In "/"%char (upto_slash s) /\ exists rest, s = upto_slash s ++ rest.
Proof.
  induction s as [|c s [IH1 [rest IH2]]]; simpl.
  - split; [intros []|exists []; reflexivity].
  - destruct (Ascii.eqb c "/"%char) eqn:E.
    + split; [intros []|]. exists (c :: s). reflexivity.
    + split.
      * intros [H|H]; [|auto]. subst c. discriminate.
      * exists rest. simpl. f_equal. exact IH2.
Qed.

Lemma basename_spec (path : str) :
  ~ In "/"%char (basename path) /\ exists dir, path = dir ++ basename path.
Proof.
  unfold basename. destruct (upto_slash_spec (rev path)) as [H1 [rest H2]].
  split.
  - intros H. apply H1. apply in_rev. exact H.
  - exists (rev rest). rewrite <- rev_app_distr, <- H2, rev_involutive.
    reflexivity.
Qed.

Section RowProperties.

Variable parse : str -> result datetime.

Lemma process_valid (g : globals) (d : document) :
  Forall valid_row (emails g) -> Forall valid_row (emails (process parse g d)).
Proof.
  intros H. unfold process. fold (full_text d).
  pose proof (parse_first_email_result parse (full_text d)) as R.
  destruct (parse_first_email parse (full_text d)) as [h|]; [|exact H].
  cbn [emails]. apply Forall_app. split; [exact H|]. constructor; [|constructor].
  assert (F : filled h = true).
  { unfold result_of in R. destruct (filled _) eqn:F; congruence. }
  apply filled_fields in F as (F1 & F2 & F3). cbn [field] in F1, F2, F3.
  destruct (basename_spec (pdf_file d)) as [B1 B2].
  unfold valid_row. cbn [Path FileName fields].
  assert (K : forall c,
            From (if truthy (Content h) then set_Content h c else h) = From h
            /\ To (if truthy (Content h) then set_Content h c else h) = To h
            /\ Sent (if truthy (Content h) then set_Content h c else h)
               = Sent h).
  { intros c. destruct (truthy (Content h)); repeat split. }
  destruct (K (if 2 <? length (pages d)
               then remove_trailing_text (Content h) ++ pages_notice
               else remove_trailing_text (Content h))) as (K1 & K2 & K3).
  rewrite K1, K2, K3.
  repeat split; auto using truthy_true.
Qed.

Lemma process_fold_valid (docs : list document) :
  forall g, Forall valid_row (emails g) ->
    Forall valid_row (emails (fold_left (process parse) docs g)).
Proof.
  induction docs as [|d docs IH]; intros g H; [exact H|].
  cbn [fold_left]. apply IH. apply process_valid. exact H.
Qed.

(** X14: every data row of the table is a valid record: its From, To and
    Sent are non-empty, its [FileName] holds no slash and is the end of its
    [Path]. *)
Theorem main_rows_valid (CSV_FILE : str) (docs : list document) :
  exists es,
    csv_file (main parse CSV_FILE docs) = Some (fieldnames :: map row es)
    /\ Forall valid_row es.
Proof.
  pose proof (main_cases parse CSV_FILE docs) as M. cbv zeta in M.
  destruct (existsb (parses parse) docs); destruct M as (C & _ & _).
  - eexists. split; [exact C|].
    pose proof (process_fold_valid docs init_globals (Forall_nil _)) as V.
    rewrite Forall_forall in *. intros e He. apply V.
    apply (Permutation_in _ (sorted_desc_perm _)). exact He.
  - exists []. split; [exact C|]. constructor.
Qed.

End RowProperties.

(** ** The calendar *)

Lemma chain_from_spec :
  forall f r,
    chain_from f r (ord2ymd r) = true ->
    forall k, (r <= k < r + Z.of_nat f)%Z ->
      ymd_ok (ord2ymd k) = true
      /\ ((k + 1 < r + Z.of_nat f)%Z ->
          ymd_lt (ord2ymd k) (ord2ymd (k + 1)) = true).
Proof.
  induction f as [|f IH]; intros r H k Hk; [lia|].
  cbn [chain_from] in H. apply andb_prop in H as [Hok H].
  destruct f as [|f'].
  - assert (k = r) by lia. subst k. split; [exact Hok|lia].
  - cbv zeta in H. apply andb_prop in H as [Hlt H].
    destruct (Z.eq_dec k r) as [->|Hne].
    + split; [exact Hok|]. intros _. exact Hlt.
    + destruct (IH (r + 1)%Z H k) as [A B]; [lia|].
      split; [exact A|]. intros L. apply B. lia.
Qed.

Lemma cycle_checked : chain_from (Z.to_nat 146097) 0 (ord2ymd 0) = true.
Proof. vm_compute. reflexivity. Qed.

Lemma cycle_ok (r : Z) :
  (0 <= r < 146097)%Z -> ymd_ok (ord2ymd r) = true.
Proof.
  intros H. apply (chain_from_spec _ 0 cycle_checked r). lia.
Qed.

Lemma cycle_succ (r : Z) :
  (0 <= r < 146096)%Z -> ymd_lt (ord2ymd r) (ord2ymd (r + 1)) = true.
Proof.
  intros H. apply (chain_from_spec _ 0 cycle_checked r); lia.
Qed.

(** The dates repeat every 146097 days, 400 years later. *)
Lemma ord2ymd_cycle (q r : Z) :
  (0 <= r < 146097)%Z ->
  ord2ymd (q * 146097 + r) =
  let '(y, m, d) := ord2ymd r in ((q * 400 + y)%Z, m, d).
Proof.
  intros Hr.
  assert (Hq : ((q * 146097 + r) / 146097 = q)%Z).
  { symmetry. apply (Z.div_unique _ _ q r); lia. }
  assert (Hm : ((q * 146097 + r) mod 146097 = r)%Z).
  { symmetry. apply (Z.mod_unique _ _ q r); lia. }
  assert (Hq0 : (r / 146097 = 0)%Z) by (apply Z.div_small; lia).
  assert (Hm0 : (r mod 146097 = r)%Z) by (apply Z.mod_small; lia).
  unfold ord2ymd. rewrite Hq, Hm, Hq0, Hm0. cbv zeta.
  destruct ((r mod 36524 mod 1461 / 365 =? 4)%Z || (r / 36524 =? 4)%Z).
  - f_equal. f_equal. lia.
  - match goal with |- context [if ?c then _ else _] => destruct c end;
      f_equal; f_equal; lia.
Qed.

Lemma ymd_lt_shift (q : Z) (a b : Z * Z * Z) :
  ymd_lt a b = true ->
  ymd_lt (let '(y, m, d) := a in ((q * 400 + y)%Z, m, d))
         (let '(y, m, d) := b in ((q * 400 + y)%Z, m, d)) = true.
Proof.
  destruct a as [[y1 m1] d1], b as [[y2 m2] d2]. unfold ymd_lt.
  intros H.
  destruct (Z.ltb_spec y1 y2), (Z.eqb_spec y1 y2), (Z.ltb_spec m1 m2),
    (Z.eqb_spec m1 m2), (Z.ltb_spec d1 d2); simpl in H; try discriminate;
    try lia;
    destruct (Z.ltb_spec (q * 400 + y1) (q * 400 + y2)),
      (Z.eqb_spec (q * 400 + y1) (q * 400 + y2)); simpl; try reflexivity; lia.
Qed.

Lemma ymd_lt_trans (a b c : Z * Z * Z) :
  ymd_lt a b = true -> ymd_lt b c = true -> ymd_lt a c = true.
Proof.
  destruct a as [[y1 m1] d1], b as [[y2 m2] d2], c as [[y3 m3] d3].
  unfold ymd_lt. intros H1 H2.
  destruct (Z.ltb_spec y1 y2), (Z.eqb_spec y1 y2), (Z.ltb_spec m1 m2),
    (Z.eqb_spec m1 m2), (Z.ltb_spec d1 d2); simpl in H1; try discriminate;
    try lia;
    destruct (Z.ltb_spec y2 y3), (Z.eqb_spec y2 y3), (Z.ltb_spec m2 m3),
      (Z.eqb_spec m2 m3), (Z.ltb_spec d2 d3); simpl in H2; try discriminate;
      try lia;
    destruct (Z.ltb_spec y1 y3), (Z.eqb_spec y1 y3), (Z.ltb_spec m1 m3),
      (Z.eqb_spec m1 m3), (Z.ltb_spec d1 d3); simpl; try reflexivity; lia.
Qed.

Lemma ord2ymd_succ (n : Z) :
  (0 <= n)%Z -> ymd_lt (ord2ymd n) (ord2ymd (n + 1)) = true.
Proof.
  intros Hn.
  pose proof (Z.div_mod n 146097 ltac:(lia)) as E.
  pose proof (Z.mod_pos_bound n 146097 ltac:(lia)) as B.
  set (q := (n / 146097)%Z) in *. set (r := (n mod 146097)%Z) in *.
  replace n with (q * 146097 + r)%Z by lia.
  destruct (Z.eq_dec r 146096) as [R|R].
  - replace (q * 146097 + r + 1)%Z with ((q + 1) * 146097 + 0)%Z by lia.
    rewrite (ord2ymd_cycle q r B), (ord2ymd_cycle (q + 1) 0) by lia.
    rewrite R.
    change (ord2ymd 146096) with (400%Z, 12%Z, 31%Z).
    change (ord2ymd 0) with (1%Z, 1%Z, 1%Z).
    unfold ymd_lt.
    destruct (Z.ltb_spec (q * 400 + 400) ((q + 1) * 400 + 1));
      [reflexivity|lia].
  - replace (q * 146097 + r + 1)%Z with (q * 146097 + (r + 1))%Z by lia.
    rewrite (ord2ymd_cycle q r B), (ord2ymd_cycle q (r + 1)) by lia.
    apply ymd_lt_shift. apply cycle_succ. lia.
Qed.

(** Later days have later dates. *)
Lemma ord2ymd_mono (a b : Z) :
  (0 <= a < b)%Z -> ymd_lt (ord2ymd a) (ord2ymd b) = true.
Proof.
  intros H. replace b with (a + 1 + Z.of_nat (Z.to_nat (b - a - 1)))%Z by lia.
  induction (Z.to_nat (b - a - 1)) as [|k IH].
  - replace (a + 1 + Z.of_nat 0)%Z with (a + 1)%Z by lia.
    apply ord2ymd_succ. lia.
  - replace (a + 1 + Z.of_nat (S k))%Z
      with (a + 1 + Z.of_nat k + 1)%Z by lia.
    eapply ymd_lt_trans; [exact IH|]. apply ord2ymd_succ. lia.
Qed.

(** The dates of the supported days have four-digit years and two-digit
    months and days. *)
Lemma ord2ymd_range (n : Z) :
  (0 <= n <= 3652058)%Z ->
  let '(y, m, d) := ord2ymd n in
  (1 <= y <= 9999 /\ 1 <= m <= 12 /\ 1 <= d <= 31)%Z.
Proof.
  intros Hn.
  assert (Hy : let '(y, _, _) := ord2ymd n in (y <= 9999)%Z).
  { destruct (Z.eq_dec n 3652058) as [->|Hne].
    - change (ord2ymd 3652058) with (9999%Z, 12%Z, 31%Z). cbv iota beta. lia.
    - pose proof (ord2ymd_mono n 3652058 ltac:(lia)) as M.
      change (ord2ymd 3652058) with (9999%Z, 12%Z, 31%Z) in M.
      destruct (ord2ymd n) as [[y m] d]. unfold ymd_lt in M.
      destruct (Z.ltb_spec y 9999), (Z.eqb_spec y 9999); simpl in M;
        try discriminate; lia. }
  pose proof (Z.div_mod n 146097 ltac:(lia)) as E.
  pose proof (Z.mod_pos_bound n 146097 ltac:(lia)) as B.
  assert (Q : (0 <= n / 146097)%Z) by (apply Z.div_pos; lia).
  set (q := (n / 146097)%Z) in *. set (r := (n mod 146097)%Z) in *.
  clearbody q r. subst n.
  replace (146097 * q + r)%Z with (q * 146097 + r)%Z in * by lia.
  rewrite (ord2ymd_cycle q r B) in *.
  pose proof (cycle_ok r B) as K.
  destruct (ord2ymd r) as [[y m] d]. unfold ymd_ok in K.
  repeat (apply andb_prop in K as [K ?]).
  repeat match goal with
         | H : (_ <=? _)%Z = true |- _ => apply Z.leb_le in H
         end.
  lia.
Qed.

(** ** The order of normalised dates *)

Lemma dec_length (w : nat) : forall n, length (dec w n) = w.
Proof.
  induction w as [|w IH]; intros n; [reflexivity|]. simpl.
  rewrite length_app, IH. simpl. lia.
Qed.

Lemma str_ltb_app_lt (a : str) :
  forall b x y, length a = length b -> str_ltb a b = true ->
    str_ltb (a ++ x) (b ++ y) = true.
Proof.
  induction a as [|c a IH]; intros [|e b] x y L H; simpl in *;
    try discriminate.
  apply orb_prop in H as [H|H]; [rewrite H; reflexivity|].
  apply andb_prop in H as [H1 H2]. rewrite H1, (IH b x y) by (auto; lia).
  apply orb_true_r.
Qed.

Lemma str_ltb_app_eq (a x y : str) : str_ltb (a ++ x) (a ++ y) = str_ltb x y.
Proof.
  induction a as [|c a IH]; [reflexivity|]. simpl.
  rewrite N.ltb_irrefl, N.eqb_refl, IH. reflexivity.
Qed.

Lemma code_digit (n : Z) : code (digit n) = (48 + Z.to_N (n mod 10))%N.
Proof.
  unfold code, digit. apply N_ascii_embedding.
  pose proof (Z.mod_pos_bound n 10 ltac:(lia)). lia.
Qed.

(** Zero-padded decimals of one width are ordered like their numbers. *)
Lemma dec_lt (w : nat) :
  forall a b, (0 <= a < b)%Z -> (b < 10 ^ Z.of_nat w)%Z ->
    str_ltb (dec w a) (dec w b) = true.
Proof.
  induction w as [|w IH]; intros a b Hab Hb.
  - simpl in Hb. lia.
  - cbn [dec].
    pose proof (Z.div_mod a 10 ltac:(lia)) as Ea.
    pose proof (Z.div_mod b 10 ltac:(lia)) as Eb.
    pose proof (Z.mod_pos_bound a 10 ltac:(lia)) as Ba.
    pose proof (Z.mod_pos_bound b 10 ltac:(lia)) as Bb.
    assert (Hpow : (10 ^ Z.of_nat (S w) = 10 * 10 ^ Z.of_nat w)%Z).
    { rewrite Nat2Z.inj_succ, Z.pow_succ_r by lia. reflexivity. }
    destruct (Z.eq_dec (a / 10) (b / 10)) as [E|E].
    + rewrite E, str_ltb_app_eq. simpl. rewrite !code_digit.
      destruct (N.ltb_spec (48 + Z.to_N (a mod 10)) (48 + Z.to_N (b mod 10)));
        [reflexivity|lia].
    + apply str_ltb_app_lt; [rewrite !dec_length; reflexivity|].
      apply IH; lia.
Qed.

Lemma date_part_length (days : Z) : length (date_part days) = 10.
Proof.
  unfold date_part. destruct (ord2ymd days) as [[y m] d].
  rewrite !length_app, !dec_length. reflexivity.
Qed.

Lemma time_part_length (sod : Z) : length (time_part sod) = 8.
Proof.
  unfold time_part. rewrite !length_app, !dec_length. reflexivity.
Qed.

Lemma date_part_lt (d1 d2 : Z) :
  (0 <= d1 < d2)%Z -> (d2 <= 3652058)%Z ->
  str_ltb (date_part d1) (date_part d2) = true.
Proof.
  intros H1 H2. pose proof (ord2ymd_mono d1 d2 H1) as M.
  pose proof (ord2ymd_range d1 ltac:(lia)) as R1.
  pose proof (ord2ymd_range d2 ltac:(lia)) as R2.
  unfold date_part.
  destruct (ord2ymd d1) as [[y1 m1] e1], (ord2ymd d2) as [[y2 m2] e2].
  unfold ymd_lt in M.
  destruct (Z.ltb_spec y1 y2) as [Y|Y].
  { apply str_ltb_app_lt; [rewrite !dec_length; reflexivity|].
    apply dec_lt; simpl; lia. }
  destruct (Z.eqb_spec y1 y2) as [->|Y']; [|discriminate]. simpl in M.
  rewrite str_ltb_app_eq, (str_ltb_app_eq (py "-")).
  destruct (Z.ltb_spec m1 m2) as [Mo|Mo].
  { apply str_ltb_app_lt; [rewrite !dec_length; reflexivity|].
    apply dec_lt; simpl; lia. }
  destruct (Z.eqb_spec m1 m2) as [->|Mo']; [|discriminate]. simpl in M.
  rewrite str_ltb_app_eq, (str_ltb_app_eq (py "-")).
  apply Z.ltb_lt in M. apply dec_lt; simpl; lia.
Qed.

Lemma time_part_lt (s1 s2 : Z) :
  (0 <= s1 < s2)%Z -> (s2 < 86400)%Z ->
  str_ltb (time_part s1) (time_part s2) = true.
Proof.
  intros H1 H2. unfold time_part.
  assert (D : forall s, (0 <= s < 86400)%Z ->
            (s = 3600 * (s / 3600) + 60 * (s / 60 mod 60) + s mod 60
             /\ 0 <= s / 3600 < 24 /\ 0 <= s / 60 mod 60 < 60
             /\ 0 <= s mod 60 < 60)%Z).
  { intros s Hs.
    pose proof (Z.div_mod s 60 ltac:(lia)).
    pose proof (Z.mod_pos_bound s 60 ltac:(lia)).
    pose proof (Z.div_mod (s / 60) 60 ltac:(lia)) as E.
    pose proof (Z.mod_pos_bound (s / 60) 60 ltac:(lia)).
    rewrite Z.div_div in E by lia. change (60 * 60)%Z with 3600%Z in E.
    assert (0 <= s / 3600)%Z by (apply Z.div_pos; lia).
    lia. }
  destruct (D s1 ltac:(lia)) as (E1 & A1 & B1 & C1).
  destruct (D s2 ltac:(lia)) as (E2 & A2 & B2 & C2).
  revert E1 A1 B1 C1 E2 A2 B2 C2.
  generalize (s1 / 3600)%Z (s1 / 60 mod 60)%Z (s1 mod 60)%Z
             (s2 / 3600)%Z (s2 / 60 mod 60)%Z (s2 mod 60)%Z.
  intros h1 m1 c1 h2 m2 c2 E1 A1 B1 C1 E2 A2 B2 C2.
  destruct (Z.eq_dec h1 h2) as [->|Hh].
  - rewrite str_ltb_app_eq, (str_ltb_app_eq (py ":")).
    destruct (Z.eq_dec m1 m2) as [->|Hm].
    + rewrite str_ltb_app_eq, (str_ltb_app_eq (py ":")).
      apply dec_lt; simpl; lia.
    + apply str_ltb_app_lt; [rewrite !dec_length; reflexivity|].
      apply dec_lt; simpl; lia.
  - apply str_ltb_app_lt; [rewrite !dec_length; reflexivity|].
    apply dec_lt; simpl; lia.
Qed.

Lemma frac_part_lt (u1 u2 : Z) (tail : str) :
  (0 <= u1 < u2)%Z -> (u2 < 1000000)%Z ->
  str_ltb (frac_part u1 ++ py "+" ++ tail) (frac_part u2 ++ py "+" ++ tail)
  = true.
Proof.
  intros H1 H2. unfold frac_part.
  destruct (Z.eqb_spec u2 0) as [?|_]; [lia|].
  destruct (Z.eqb_spec u1 0) as [_|N1]; [reflexivity|].
  rewrite <- !app_assoc, (str_ltb_app_eq (py ".")).
  apply str_ltb_app_lt; [rewrite !dec_length; reflexivity|].
  apply dec_lt; simpl; lia.
Qed.

Lemma isoformat_parts (dt : datetime) :
  isoformat dt =
  (date_part (wall dt / 1000000 / 86400)
   ++ py "T" ++ time_part (wall dt / 1000000 mod 86400)
   ++ frac_part (wall dt mod 1000000) ++ format_offset (tzinfo dt))%Z.
Proof.
  unfold isoformat, date_part, time_part, frac_part. cbv zeta.
  destruct (ord2ymd _) as [[y m] d].
  rewrite <- !app_assoc. reflexivity.
Qed.

(** The strings of two UTC readings of the supported years are ordered like
    the readings. *)
Lemma isoformat_lt (w1 w2 : Z) :
  (0 <= w1 < w2)%Z -> (w2 <= MAX_WALL)%Z ->
  str_ltb (isoformat {| wall := w1; tzinfo := Some utc |})
          (isoformat {| wall := w2; tzinfo := Some utc |}) = true.
Proof.
  intros H1 H2. rewrite !isoformat_parts. cbn [wall tzinfo].
  change (format_offset (Some utc)) with (py "+" ++ py "00:00").
  unfold MAX_WALL in H2.
  pose proof (Z.div_mod w1 1000000 ltac:(lia)) as E1.
  pose proof (Z.mod_pos_bound w1 1000000 ltac:(lia)) as B1.
  pose proof (Z.div_mod w2 1000000 ltac:(lia)) as E2.
  pose proof (Z.mod_pos_bound w2 1000000 ltac:(lia)) as B2.
  pose proof (Z.div_mod (w1 / 1000000) 86400 ltac:(lia)) as F1.
  pose proof (Z.mod_pos_bound (w1 / 1000000) 86400 ltac:(lia)) as C1.
  pose proof (Z.div_mod (w2 / 1000000) 86400 ltac:(lia)) as F2.
  pose proof (Z.mod_pos_bound (w2 / 1000000) 86400 ltac:(lia)) as C2.
  revert E1 B1 E2 B2 F1 C1 F2 C2.
  generalize (w1 / 1000000 / 86400)%Z (w1 / 1000000 mod 86400)%Z
             (w2 / 1000000 / 86400)%Z (w2 / 1000000 mod 86400)%Z.
  generalize (w1 / 1000000)%Z (w1 mod 1000000)%Z
             (w2 / 1000000)%Z (w2 mod 1000000)%Z.
  intros q1 u1 q2 u2 d1 s1 d2 s2 E1 B1 E2 B2 F1 C1 F2 C2.
  destruct (Z.eq_dec d1 d2) as [->|Hd].
  - rewrite str_ltb_app_eq, (str_ltb_app_eq (py "T")).
    destruct (Z.eq_dec s1 s2) as [->|Hs].
    + rewrite str_ltb_app_eq. apply frac_part_lt; lia.
    + apply str_ltb_app_lt; [rewrite !time_part_length; reflexivity|].
      apply time_part_lt; lia.
  - apply str_ltb_app_lt; [rewrite !date_part_length; reflexivity|].
    apply date_part_lt; lia.
Qed.

Lemma normalize_date_some (parse : str -> result datetime) (s iso : str)
    (d : datetime) :
  parse s = Ok d -> in_years (wall d) = true ->
  normalize_date parse s = Some iso ->
  iso = isoformat {| wall := instant d; tzinfo := Some utc |}
  /\ in_years (instant d) = true.
Proof.
  intros P Y. unfold normalize_date. rewrite P. cbn [bind].
  destruct (tzinfo d) as [off|] eqn:T.
  - rewrite astimezone_utc.
    destruct (in_years (wall d - off * 1000000)) eqn:I; cbn [bind];
      [|discriminate].
    intros H. injection H as <-. unfold instant. rewrite T.
    replace (wall d - 1000000 * off)%Z with (wall d - off * 1000000)%Z by lia.
    auto.
  - cbn [bind]. intros H. injection H as <-.
    unfold instant, replace_tzinfo. rewrite T.
    replace (wall d - 1000000 * 0)%Z with (wall d) by lia. auto.
Qed.

(** X15: the order of the strings [normalize_date] returns is the order of
    the instants: of two parsed dates, the earlier one gets the smaller
    string, so sorting the e-mails by [Sent] sorts them by time. *)
Theorem normalize_date_order (parse : str -> result datetime)
    (s1 s2 iso1 iso2 : str) (d1 d2 : datetime) :
  parse s1 = Ok d1 -> parse s2 = Ok d2 ->
  in_years (wall d1) = true -> in_years (wall d2) = true ->
  normalize_date parse s1 = Some iso1 ->
  normalize_date parse s2 = Some iso2 ->
  (instant d1 < instant d2)%Z ->
  str_ltb iso1 iso2 = true.
Proof.
  intros P1 P2 Y1 Y2 N1 N2 L.
  destruct (normalize_date_some parse s1 iso1 d1 P1 Y1 N1) as [-> I1].
  destruct (normalize_date_some parse s2 iso2 d2 P2 Y2 N2) as [-> I2].
  unfold in_years in I1, I2.
  apply andb_prop in I1 as [A1 _]. apply andb_prop in I2 as [_ A2].
  apply Z.leb_le in A1, A2. apply isoformat_lt; lia.
Qed.

(** ** The pages of a document *)

Lemma nonblank_nil : nonblank [] = false.
Proof. reflexivity. Qed.

Lemma splitlines_go_break (b cur : str) :
  filter nonblank (splitlines_go cur ([] ++ LF :: b))
  = filter nonblank (splitlines_go cur []) ++ filter nonblank (splitlines b).
Proof.
  cbn [app splitlines_go].
  change (is_linebreak LF) with true. cbv iota.
  change (Ascii.eqb LF CR) with false. cbn [andb].
  unfold splitlines.
  destruct b as [|y b]; (destruct cur as [|x cur];
    [reflexivity
    |cbn [filter]; destruct (nonblank (rev (x :: cur))); reflexivity]).
Qed.

Lemma splitlines_go_cons (cur : str) (c : ascii) (s : str) :
  splitlines_go cur (c :: s)
  = if is_linebreak c
    then rev cur ::
         splitlines_go []
           match s with
           | n :: t => if Ascii.eqb c CR && Ascii.eqb n LF then t else s
           | [] => s
           end
    else splitlines_go (c :: cur) s.
Proof.
  cbn [splitlines_go]. destruct (is_linebreak c); [|reflexivity].
  destruct s as [|n t]; [reflexivity|].
  destruct (Ascii.eqb c CR && Ascii.eqb n LF); reflexivity.
Qed.

Lemma splitlines_go_join (b : str) :
  forall n a cur, length a <= n ->
    filter nonblank (splitlines_go cur (a ++ LF :: b))
    = filter nonblank (splitlines_go cur a) ++ filter nonblank (splitlines b).
Proof.
  induction n as [|n IH]; intros a cur Hn.
  - destruct a; [|simpl in Hn; lia]. apply splitlines_go_break.
  - destruct a as [|c a]; [apply splitlines_go_break|].
    simpl in Hn. change ((c :: a) ++ LF :: b) with (c :: (a ++ LF :: b)).
    rewrite !splitlines_go_cons.
    destruct (is_linebreak c); [|apply IH; lia].
    assert (G : forall u v w : list str,
               filter nonblank u = filter nonblank v ++ w ->
               filter nonblank (rev cur :: u)
               = filter nonblank (rev cur :: v) ++ w).
    { intros u v w E. cbn [filter].
      destruct (nonblank (rev cur)); rewrite E; reflexivity. }
    apply G. clear G.
    destruct a as [|x t]; cbn [app].
    + rewrite Ascii.eqb_refl, andb_true_r.
      destruct (Ascii.eqb c CR);
        [reflexivity | apply (splitlines_go_break b [])].
    + destruct (Ascii.eqb c CR && Ascii.eqb x LF).
      * apply IH. simpl in Hn. lia.
      * apply (IH (x :: t)). lia.
Qed.

Lemma splitlines_join (parts : list str) :
  filter nonblank (splitlines (join [LF] parts))
  = filter nonblank (concat (map splitlines parts)).
Proof.
  induction parts as [|p [|q parts] IH].
  - reflexivity.
  - simpl. rewrite app_nil_r. reflexivity.
  - change (join [LF] (p :: q :: parts))
      with (p ++ LF :: join [LF] (q :: parts)).
    unfold splitlines at 1.
    rewrite (splitlines_go_join _ (length p) p [] (le_n _)).
    fold (splitlines p). rewrite IH. cbn [map concat].
    symmetry. apply filter_app.
Qed.

(** X16: the pages are scanned one after the other: for the text of the
    first two pages joined by a newline, the scan does what it does on the
    lines of the first page followed by the lines of the second. *)
Theorem pages_scanned_in_turn (parse : str -> result datetime) (d : document) :
  parse_first_email parse (full_text d)
  = result_of
      (scan parse init_headers
         (concat
            (map splitlines
               (map (fun page => match page with Some t => t | None => [] end)
                    (firstn 2 (pages d)))))).
Proof.
  rewrite parse_first_email_result. f_equal.
  rewrite <- (scan_strip_nonblank parse (splitlines (full_text d))).
  rewrite <- (scan_strip_nonblank parse (concat _)).
  unfold full_text. rewrite splitlines_join. reflexivity.
Qed.

(** ** The notice about removed pages *)

Section NoticeProperties.

Variable parse : str -> result datetime.

Lemma process_notice (g : globals) (d : document) :
  Forall (fun e => exists c, ~ In STAR c
                     /\ (Content (fields e) = c
                         \/ Content (fields e) = c ++ pages_notice))
         (emails g) ->
  Forall (fun e => exists c, ~ In STAR c
                     /\ (Content (fields e) = c
                         \/ Content (fields e) = c ++ pages_notice))
         (emails (process parse g d)).
Proof.
  intros H. unfold process. fold (full_text d).
  destruct (parse_first_email parse (full_text d)) as [h|]; [|exact H].
  cbn [emails]. apply Forall_app. split; [exact H|]. constructor; [|constructor].
  cbn [fields]. destruct (truthy (Content h)) eqn:T.
  - exists (remove_trailing_text (Content h)). split.
    + rewrite remove_trailing_text_cuts. apply without_stars_clean.
    + destruct h, (2 <? length (pages d)); [right|left]; reflexivity.
  - exists []. split; [intros []|]. left.
    unfold truthy in T. destruct (Content h); [reflexivity|discriminate].
Qed.

Lemma process_fold_notice (docs : list document) :
  forall g,
    Forall (fun e => exists c, ~ In STAR c
                       /\ (Content (fields e) = c
                           \/ Content (fields e) = c ++ pages_notice))
           (emails g) ->
    Forall (fun e => exists c, ~ In STAR c
                       /\ (Content (fields e) = c
                           \/ Content (fields e) = c ++ pages_notice))
           (emails (fold_left (process parse) docs g)).
Proof.
  induction docs as [|d docs IH]; intros g H; [exact H|].
  cbn [fold_left]. apply IH. apply process_notice. exact H.
Qed.

(** X17: the only asterisks in a Content cell are those of the notice about
    removed pages: every Content of the table is a text without asterisks,
    alone or followed by the notice. *)
Theorem asterisks_only_in_notice (CSV_FILE : str) (docs : list document) :
  exists es,
    csv_file (main parse CSV_FILE docs) = Some (fieldnames :: map row es)
    /\ Forall (fun e => exists c, ~ In STAR c
                          /\ (Content (fields e) = c
                              \/ Content (fields e) = c ++ pages_notice))
              es.
Proof.
  pose proof (main_cases parse CSV_FILE docs) as M. cbv zeta in M.
  destruct (existsb (parses parse) docs); destruct M as (C & _ & _).
  - eexists. split; [exact C|].
    pose proof (process_fold_notice docs init_globals (Forall_nil _)) as V.
    rewrite Forall_forall in *. intros e He. apply V.
    apply (Permutation_in _ (sorted_desc_perm _)). exact He.
  - exists []. split; [exact C|]. constructor.
Qed.

End NoticeProperties.

(** ** Examples for the further properties *)

Lemma main_counts_witness :
  let st := {| successfull := 1; total := 2;
               stats_failed := [py "scans/empty.pdf"] |} in
  stats_file (main example_parser (py "emails.csv") example_docs) = Some st
  /\ total st = length example_docs
  /\ successfull st + length (stats_failed st) = total st
  /\ stats_failed st
     = map pdf_file
         (filter (fun d => negb (parses example_parser d)) example_docs)
  /\ exists rows,
       csv_file (main example_parser (py "emails.csv") example_docs)
       = Some (fieldnames :: rows)
       /\ length rows = successfull st.
Proof.
  cbv zeta.
  assert (H : stats_file (main example_parser (py "emails.csv") example_docs)
              = Some {| successfull := 1; total := 2;
                        stats_failed := [py "scans/empty.pdf"] |})
    by (vm_compute; reflexivity).
  split; [exact H|].
  exact (main_counts example_parser _ _ _ H).
Defined.

Lemma main_accounts_for_documents_witness :
  let st := {| successfull := 1; total := 2;
               stats_failed := [py "scans/empty.pdf"] |} in
  stats_file (main example_parser (py "out.csv") example_docs) = Some st
  /\ exists es,
       csv_file (main example_parser (py "out.csv") example_docs)
       = Some (fieldnames :: map row es)
       /\ Permutation (map pdf_file example_docs)
            (map Path es ++ stats_failed st).
Proof.
  cbv zeta.
  assert (H : stats_file (main example_parser (py "out.csv") example_docs)
              = Some {| successfull := 1; total := 2;
                        stats_failed := [py "scans/empty.pdf"] |})
    by (vm_compute; reflexivity).
  split; [exact H|].
  exact (main_accounts_for_documents example_parser _ _ _ H).
Defined.

Lemma parse_first_email_layout_witness :
  let text :=
    text_of [py "From: Alice"; py "To: Bob"; py "Sent: Jan 5 2024 10:00";
             py "Hello"] in
  let text' :=
    text_of [py "   From: Alice"; []; py "  "; py "To: Bob   ";
             py "Sent: Jan 5 2024 10:00"; []; py " Hello "; []] in
  map strip (filter nonblank (splitlines text))
  = map strip (filter nonblank (splitlines text'))
  /\ parse_first_email example_parser text
     = parse_first_email example_parser text'.
Proof.
  cbv zeta.
  assert (H : map strip (filter nonblank (splitlines
                (text_of [py "From: Alice"; py "To: Bob";
                          py "Sent: Jan 5 2024 10:00"; py "Hello"])))
              = map strip (filter nonblank (splitlines
                  (text_of [py "   From: Alice"; []; py "  ";
                            py "To: Bob   "; py "Sent: Jan 5 2024 10:00";
                            []; py " Hello "; []]))))
    by (vm_compute; reflexivity).
  split; [exact H|].
  exact (parse_first_email_layout example_parser _ _ H).
Defined.

Lemma repeated_header_is_body_witness :
  let h := {| From := py "Alice"; To := py "Bob";
              Sent := py "2024-01-05T10:00:00+00:00";
              Subject := []; Content := [] |} in
  let raw := py "From: Mallory" in
  offer example_parser HFrom raw = Some (py "Mallory")
  /\ truthy (field HFrom h) = true
  /\ filled h = true
  /\ (princess_rule h raw || epstein_rule h raw) = false
  /\ step example_parser h raw
     = Continue (set_Content h (Content h ++ piece raw)).
Proof.
  cbv zeta.
  set (h := {| From := py "Alice"; To := py "Bob";
               Sent := py "2024-01-05T10:00:00+00:00";
               Subject := []; Content := [] |}).
  set (raw := py "From: Mallory").
  assert (H1 : offer example_parser HFrom raw = Some (py "Mallory"))
    by (vm_compute; reflexivity).
  assert (H2 : truthy (field HFrom h) = true) by (vm_compute; reflexivity).
  assert (H3 : filled h = true) by (vm_compute; reflexivity).
  assert (H4 : (princess_rule h raw || epstein_rule h raw) = false)
    by (vm_compute; reflexivity).
  split; [exact H1|]. split; [exact H2|]. split; [exact H3|].
  split; [exact H4|].
  exact (repeated_header_is_body example_parser h raw HFrom _ H1 H2 H3 H4).
Defined.

Lemma header_values_one_line_witness :
  let text :=
    text_of [py "From:   Alice  A. "; py "To: Bob"; py "Subject:  Hi   there";
             py "Sent: Jan 5 2024 10:00"; py "Hello"] in
  let r := scan example_parser init_headers (splitlines text) in
  parse_first_email example_parser text = Some r
  /\ From r = py "Alice A."
  /\ one_line (From r) /\ one_line (To r) /\ one_line (Subject r).
Proof.
  cbv zeta.
  set (text := text_of [py "From:   Alice  A. "; py "To: Bob";
                        py "Subject:  Hi   there";
                        py "Sent: Jan 5 2024 10:00"; py "Hello"]).
  assert (H : parse_first_email example_parser text
              = Some (scan example_parser init_headers (splitlines text)))
    by (vm_compute; reflexivity).
  split; [exact H|]. split; [vm_compute; reflexivity|].
  exact (header_values_one_line example_parser text _ H).
Defined.

Lemma unmarked_sender_scans_all_witness :
  let text :=
    text_of [py "From: Alice"; py "To: Bob"; py "Sent: Jan 5 2024 10:00";
             py "Den dagen hun skrev"; py "From: Carol"] in
  (forall l v, In l (splitlines text) ->
     offer example_parser HFrom l = Some v -> marked v = false)
  /\ runs example_parser init_headers (splitlines text)
     = Some (scan example_parser init_headers (splitlines text)).
Proof.
  cbv zeta.
  set (text := text_of [py "From: Alice"; py "To: Bob";
                        py "Sent: Jan 5 2024 10:00";
                        py "Den dagen hun skrev"; py "From: Carol"]).
  assert (H : forall l v, In l (splitlines text) ->
                offer example_parser HFrom l = Some v -> marked v = false).
  { intros l v Hin. vm_compute in Hin.
    repeat (destruct Hin as [<-|Hin];
            [intros E; vm_compute in E;
             first [discriminate E
                   |injection E as <-; vm_compute; reflexivity]|]).
    destruct Hin. }
  split; [exact H|].
  exact (unmarked_sender_scans_all example_parser text H).
Defined.

Lemma remove_trailing_text_clean_witness :
  let body := py "See you. Sent from my iPad. On Monday Bob wrote: hi" in
  ~ In STAR body
  /\ remove_trailing_text body = py "See you. "
  /\ find (lower (remove_trailing_text body))
          (py "the information contained in this") = (-1)%Z
  /\ find (lower (remove_trailing_text body)) (py "sent from my ") = (-1)%Z
  /\ find (lower (remove_trailing_text body)) (py "sendt fra min ") = (-1)%Z
  /\ re_search re_den_skrev (remove_trailing_text body) = None
  /\ re_search re_on_wrote (remove_trailing_text body) = None.
Proof.
  cbv zeta.
  assert (H : ~ In STAR
                (py "See you. Sent from my iPad. On Monday Bob wrote: hi")).
  { vm_compute. intros H.
    repeat (destruct H as [H|H]; [discriminate H|]). exact H. }
  split; [exact H|]. split; [vm_compute; reflexivity|].
  exact (remove_trailing_text_clean _ H).
Defined.

Lemma clean_text_twice_witness :
  let text := py "  Hello   big  world " in
  ~ In "="%char (clean_text text)
  /\ clean_text text = py "Hello big world"
  /\ clean_text (clean_text text) = clean_text text.
Proof.
  cbv zeta.
  assert (H : ~ In "="%char (clean_text (py "  Hello   big  world "))).
  { vm_compute. intros H.
    repeat (destruct H as [H|H]; [discriminate H|]). exact H. }
  split; [exact H|]. split; [vm_compute; reflexivity|].
  exact (clean_text_twice _ H).
Defined.

Lemma normalize_date_order_witness :
  let s1 := py "Mon, 3 Mar 2014 10:15:00 +0100" in
  let s2 := py "Jan 5 2024 10:00" in
  let d1 := mk_datetime 2014 3 3 10 15 0 0 (Some 3600%Z) in
  let d2 := mk_datetime 2024 1 5 10 0 0 0 None in
  let iso1 := py "2014-03-03T09:15:00+00:00" in
  let iso2 := py "2024-01-05T10:00:00+00:00" in
  example_parser s1 = Ok d1 /\ example_parser s2 = Ok d2
  /\ in_years (wall d1) = true /\ in_years (wall d2) = true
  /\ normalize_date example_parser s1 = Some iso1
  /\ normalize_date example_parser s2 = Some iso2
  /\ (instant d1 < instant d2)%Z
  /\ str_ltb iso1 iso2 = true.
Proof.
  cbv zeta.
  set (s1 := py "Mon, 3 Mar 2014 10:15:00 +0100").
  set (s2 := py "Jan 5 2024 10:00").
  set (d1 := mk_datetime 2014 3 3 10 15 0 0 (Some 3600%Z)).
  set (d2 := mk_datetime 2024 1 5 10 0 0 0 None).
  assert (P1 : example_parser s1 = Ok d1) by (vm_compute; reflexivity).
  assert (P2 : example_parser s2 = Ok d2) by (vm_compute; reflexivity).
  assert (Y1 : in_years (wall d1) = true) by (vm_compute; reflexivity).
  assert (Y2 : in_years (wall d2) = true) by (vm_compute; reflexivity).
  assert (N1 : normalize_date example_parser s1
               = Some (py "2014-03-03T09:15:00+00:00"))
    by (vm_compute; reflexivity).
  assert (N2 : normalize_date example_parser s2
               = Some (py "2024-01-05T10:00:00+00:00"))
    by (vm_compute; reflexivity).
  assert (L : (instant d1 < instant d2)%Z) by (vm_compute; reflexivity).
  split; [exact P1|]. split; [exact P2|]. split; [exact Y1|].
  split; [exact Y2|]. split; [exact N1|]. split; [exact N2|].
  split; [exact L|].
  exact (normalize_date_order example_parser s1 s2 _ _ d1 d2
           P1 P2 Y1 Y2 N1 N2 L).
Defined.

(** ** Strings beyond code point 255 *)























(** X19: with U+0130 in front of a marker the cut falls to the right of
    the marker's place, by one character for each U+0130. *)
Lemma capital_i_dot_moves_the_cut :
  let I := Wide.CapitalIDot in
  Wide.remove_trailing_text
    (I :: Wide.of_str
            (py " Hi. Please note: The information contained in this message"))
  = I :: Wide.of_str (py " Hi. P")
  /\ remove_trailing_text
       (py "I Hi. Please note: The information contained in this message")
     = py "I Hi. "
  /\ Wide.remove_trailing_text
       (repeat I 13 ++ Wide.of_str (py "sent from my "))
     = repeat I 13 ++ Wide.of_str (py "sent from my ")
  /\ Wide.find
       (Wide.lower (repeat I 13 ++ Wide.of_str (py "sent from my ")))
       (Wide.of_str (py "sent from my "))
     = 26%Z.
Proof. cbv zeta. repeat split; vm_compute; reflexivity. Qed.
